(** * BufferDecorationRenderer: decoration overlay synchronisation

    A shallow embedding of [src/browser/Decorations/BufferDecorationRenderer.ts]
    and of the collaborators it talks to (the DOM nodes it creates, the
    decoration objects it receives from the decoration service, the host's
    animation-frame queue).

    Conventions.
    - JavaScript objects with identity (decorations, DOM elements) live in
      stores ([gmap nat _]) and are referred to by their address, so that the
      aliasing between [decoration.element], the renderer's map and the
      container's children is the one of the source.
    - JavaScript numbers are modelled by [Z]: cell counts, line numbers and
      the cell size in pixels are integers here.  The only falsy number is
      then [0] (there is no NaN).
    - A CSS length written as a template string [`${n}px`] is [Px n]; the
      empty string is [Unset].
    - Closures handed to event emitters are defunctionalised: one constructor
      per arrow function of the source. *)

From stdpp Require Import gmap list strings.
From Stdlib Require Import ZArith Lia.

Local Open Scope Z_scope.

(** ** Data model *)

Inductive Anchor := AnchorLeft | AnchorRight.

(** [IDecorationOptions]: every field is optional. *)
Record DecorationOptions := {
  opt_width : option Z;
  opt_height : option Z;
  opt_x : option Z;
  opt_anchor : option Anchor
}.

Inductive CssLength := Unset | Px (n : Z).

Inductive Display := DisplayUnset | DisplayNone | DisplayBlock.

(** The part of [HTMLElement] the renderer writes. *)
Record Element := {
  classList : list string;
  style_width : CssLength;
  style_height : CssLength;
  style_top : CssLength;
  style_lineHeight : CssLength;
  style_left : CssLength;
  style_right : CssLength;
  style_display : Display
}.

(** The two arrow functions that [_renderDecoration] registers. *)
Inductive DecorationListener :=
  | CallRemoveDecoration (d : nat).   (* () => this._removeDecoration(decoration) *)

Inductive MarkerListener :=
  | CallDecorationDispose (d : nat).  (* () => decoration.dispose() *)

Record Marker := {
  line : Z;
  marker_isDisposed : bool;
  marker_onDispose : list MarkerListener
}.

(** [IInternalDecoration].  [onRender_requests] stands for the listeners of
    [onRenderEmitter]: the number of refresh-requesting notifications they
    cause, synchronously, each time the emitter fires.  [disposeFired] counts
    the firings of the decoration's disposal signal. *)
Record Decoration := {
  marker : Marker;
  options : DecorationOptions;
  element : option nat;
  isDisposed : bool;
  onDispose : list DecorationListener;
  disposeFired : nat;
  onRender_requests : nat
}.

Record BufferService := {
  cols : Z;
  rows : Z;
  ydisp : Z;               (* buffers.active.ydisp *)
  buffer_is_alt : bool     (* buffer === buffers.alt *)
}.

Record RenderDimensions := {
  actualCellWidth : Z;
  actualCellHeight : Z
}.

(** The private fields of the class.  [_container] is the list of children of
    the container node; [container_attached] tells whether that node is still
    a child of the screen element; [subscriptions_live] is cleared by
    [super.dispose()], which releases what the constructor registered. *)
Record Renderer := {
  _decorationElements : gmap nat nat;
  _animationFrame : option nat;
  _altBufferIsActive : bool;
  _container : list nat;
  container_attached : bool;
  subscriptions_live : bool
}.

Record World := {
  this : Renderer;
  _bufferService : BufferService;
  dimensions : RenderDimensions;          (* _renderService.dimensions *)
  decorations : list nat;                 (* _decorationService.decorations *)
  objects : gmap nat Decoration;          (* decoration objects, by address *)
  next_object : nat;
  document : gmap nat Element;            (* DOM elements, by address *)
  next_node : nat;
  raf_queue : list nat;                   (* handles of the callbacks waiting for the next frame *)
  raf_next : nat;
  passes : nat                            (* executions of refreshDecorations so far *)
}.

(** ** Field updates *)

Definition upd_this (f : Renderer → Renderer) (w : World) : World :=
  {| this := f (this w); _bufferService := _bufferService w;
     dimensions := dimensions w; decorations := decorations w;
     objects := objects w; next_object := next_object w;
     document := document w; next_node := next_node w;
     raf_queue := raf_queue w; raf_next := raf_next w; passes := passes w |}.

Definition upd_objects (f : gmap nat Decoration → gmap nat Decoration) (w : World) : World :=
  {| this := this w; _bufferService := _bufferService w;
     dimensions := dimensions w; decorations := decorations w;
     objects := f (objects w); next_object := next_object w;
     document := document w; next_node := next_node w;
     raf_queue := raf_queue w; raf_next := raf_next w; passes := passes w |}.

Definition upd_document (f : gmap nat Element → gmap nat Element) (w : World) : World :=
  {| this := this w; _bufferService := _bufferService w;
     dimensions := dimensions w; decorations := decorations w;
     objects := objects w; next_object := next_object w;
     document := f (document w); next_node := next_node w;
     raf_queue := raf_queue w; raf_next := raf_next w; passes := passes w |}.

Definition upd_decorations (f : list nat → list nat) (w : World) : World :=
  {| this := this w; _bufferService := _bufferService w;
     dimensions := dimensions w; decorations := f (decorations w);
     objects := objects w; next_object := next_object w;
     document := document w; next_node := next_node w;
     raf_queue := raf_queue w; raf_next := raf_next w; passes := passes w |}.

Definition set_decorationElements (m : gmap nat nat) (r : Renderer) : Renderer :=
  {| _decorationElements := m; _animationFrame := _animationFrame r;
     _altBufferIsActive := _altBufferIsActive r; _container := _container r;
     container_attached := container_attached r;
     subscriptions_live := subscriptions_live r |}.

Definition set_animationFrame (h : option nat) (r : Renderer) : Renderer :=
  {| _decorationElements := _decorationElements r; _animationFrame := h;
     _altBufferIsActive := _altBufferIsActive r; _container := _container r;
     container_attached := container_attached r;
     subscriptions_live := subscriptions_live r |}.

Definition set_altBufferIsActive (b : bool) (r : Renderer) : Renderer :=
  {| _decorationElements := _decorationElements r;
     _animationFrame := _animationFrame r;
     _altBufferIsActive := b; _container := _container r;
     container_attached := container_attached r;
     subscriptions_live := subscriptions_live r |}.

Definition set_container (c : list nat) (r : Renderer) : Renderer :=
  {| _decorationElements := _decorationElements r;
     _animationFrame := _animationFrame r;
     _altBufferIsActive := _altBufferIsActive r; _container := c;
     container_attached := container_attached r;
     subscriptions_live := subscriptions_live r |}.

Definition set_top (v : CssLength) (el : Element) : Element :=
  {| classList := classList el; style_width := style_width el;
     style_height := style_height el; style_top := v;
     style_lineHeight := style_lineHeight el; style_left := style_left el;
     style_right := style_right el; style_display := style_display el |}.

Definition set_display (v : Display) (el : Element) : Element :=
  {| classList := classList el; style_width := style_width el;
     style_height := style_height el; style_top := style_top el;
     style_lineHeight := style_lineHeight el; style_left := style_left el;
     style_right := style_right el; style_display := v |}.

Definition set_element (e : option nat) (dec : Decoration) : Decoration :=
  {| marker := marker dec; options := options dec; element := e;
     isDisposed := isDisposed dec; onDispose := onDispose dec;
     disposeFired := disposeFired dec;
     onRender_requests := onRender_requests dec |}.

Definition add_onDispose (l : DecorationListener) (dec : Decoration) : Decoration :=
  {| marker := marker dec; options := options dec; element := element dec;
     isDisposed := isDisposed dec; onDispose := onDispose dec ++ [l];
     disposeFired := disposeFired dec;
     onRender_requests := onRender_requests dec |}.

Definition upd_marker (f : Marker → Marker) (dec : Decoration) : Decoration :=
  {| marker := f (marker dec); options := options dec; element := element dec;
     isDisposed := isDisposed dec; onDispose := onDispose dec;
     disposeFired := disposeFired dec;
     onRender_requests := onRender_requests dec |}.

Definition add_marker_onDispose (l : MarkerListener) (m : Marker) : Marker :=
  {| line := line m; marker_isDisposed := marker_isDisposed m;
     marker_onDispose := marker_onDispose m ++ [l] |}.

(** ** JavaScript operators on optional numbers *)

(** [v || d]: the default replaces an absent value and a falsy one. *)
Definition or_default (v : option Z) (d : Z) : Z :=
  match v with
  | Some n => if n =? 0 then d else n
  | None => d
  end.

(** [v ?? d]: the default replaces an absent value only. *)
Definition nullish_default (v : option Z) (d : Z) : Z :=
  match v with
  | Some n => n
  | None => d
  end.

Definition truthy (n : Z) : bool := negb (n =? 0).

(** ** The renderer *)

(** [window.requestAnimationFrame]: the callback joins the queue of the next
    frame and its handle is returned. *)
Definition requestAnimationFrame (w : World) : nat * World :=
  (raf_next w,
   {| this := this w; _bufferService := _bufferService w;
      dimensions := dimensions w; decorations := decorations w;
      objects := objects w; next_object := next_object w;
      document := document w; next_node := next_node w;
      raf_queue := raf_queue w ++ [raf_next w]; raf_next := S (raf_next w);
      passes := passes w |}).

(** [_createElement] (lines 76-96).  The element is returned as a value; the
    caller allocates it.  [style.left] and [style.right] start unset, and
    assigning the empty string leaves them so. *)
Definition _createElement (dec : Decoration) (w : World) : Element :=
  let cw := actualCellWidth (dimensions w) in
  let ch := actualCellHeight (dimensions w) in
  let x := nullish_default (opt_x (options dec)) 0 in
  let offset := if truthy x then Px (x * cw) else Unset in
  let right := match opt_anchor (options dec) with
               | Some AnchorRight => true
               | _ => false
               end in
  {| classList := ["xterm-decoration"%string];
     style_width := Px (or_default (opt_width (options dec)) 1 * cw);
     style_height := Px (or_default (opt_height (options dec)) 1 * ch);
     style_top := Px ((line (marker dec) - ydisp (_bufferService w)) * ch);
     style_lineHeight := Px ch;
     style_left := if right then Unset else offset;
     style_right := if right then offset else Unset;
     style_display :=
       if truthy x && (cols (_bufferService w) <? x)
       then DisplayNone else DisplayUnset |}.

(** [_refreshStyle] (lines 98-107).  The decoration and the element are
    passed by address.  The registry only holds decoration objects, so the
    [None] branch is never taken from a reachable state (see
    [inv_live_object]); it makes the function total. *)
Definition _refreshStyle (d e : nat) (w : World) : World :=
  match objects w !! d with
  | None => w
  | Some dec =>
    let ln := line (marker dec) - ydisp (_bufferService w) in
    if (ln <? 0) || (rows (_bufferService w) <=? ln)
    then upd_document (alter (set_display DisplayNone) e) w
    else
      let w1 :=
        upd_document
          (alter (set_top (Px (ln * actualCellHeight (dimensions w)))) e) w in
      upd_document
        (alter (set_display
                  (if _altBufferIsActive (this w)
                   then DisplayNone else DisplayBlock)) e) w1
  end.

(** [Element.remove()]: the node leaves its parent's children. *)
Definition element_remove (e : nat) (w : World) : World :=
  upd_this (λ r, set_container (filter (λ c, c ≠ e) (_container r)) r) w.

(** [_removeDecoration] (lines 109-112): [get(decoration)?.remove()], then
    [delete(decoration)]. *)
Definition _removeDecoration (d : nat) (w : World) : World :=
  let w1 := match _decorationElements (this w) !! d with
            | Some e => element_remove e w
            | None => w
            end in
  upd_this (λ r, set_decorationElements (delete d (_decorationElements r)) r) w1.

(** [_queueRefresh] (lines 46-54).  The callback it hands to the host is
    [frame_callback] below. *)
Definition _queueRefresh (w : World) : World :=
  match _animationFrame (this w) with
  | Some _ => w
  | None =>
    let '(h, w1) := requestAnimationFrame w in
    upd_this (set_animationFrame (Some h)) w1
  end.

(** The events the constructor subscribes to. *)
Inductive Notification :=
  | onRenderedBufferChange
  | onDimensionsChange
  | windowResize
  | onBufferActivate
  | onDecorationRegistered (d : nat)
  | onDecorationRemoved (d : nat).

(** What each subscription of the constructor (lines 30-37) does when its
    event fires, as long as the subscription has not been released. *)
Definition deliver (n : Notification) (w : World) : World :=
  if subscriptions_live (this w) then
    match n with
    | onRenderedBufferChange => _queueRefresh w
    | onDimensionsChange => _queueRefresh w
    | windowResize => _queueRefresh w
    | onBufferActivate =>
      upd_this (set_altBufferIsActive (buffer_is_alt (_bufferService w))) w
    | onDecorationRegistered _ => _queueRefresh w
    | onDecorationRemoved d => _removeDecoration d w
    end
  else w.

(** [decoration.onRenderEmitter.fire(element)]: the listeners are not part of
    the renderer; what reaches it from them is a number of refresh requests. *)
Definition fire_onRender (d : nat) (w : World) : World :=
  match objects w !! d with
  | None => w
  | Some dec => Nat.iter (onRender_requests dec) (deliver onRenderedBufferChange) w
  end.

(** [_renderDecoration] (lines 62-74).  In the creation branch the states
    [wa] to [we] follow the statements of the source one by one: create the
    element, register the two listeners, fill the [element] slot, set the
    map entry, append the child. *)
Definition _renderDecoration (d : nat) (w : World) : World :=
  match objects w !! d with
  | None => w
  | Some dec =>
    let '(e, w1) :=
      match _decorationElements (this w) !! d with
      | Some e => (e, w)
      | None =>
        let e := next_node w in
        let wa :=
          {| this := this w; _bufferService := _bufferService w;
             dimensions := dimensions w; decorations := decorations w;
             objects := objects w; next_object := next_object w;
             document := <[e := _createElement dec w]> (document w);
             next_node := S e;
             raf_queue := raf_queue w; raf_next := raf_next w;
             passes := passes w |} in
        let wb := upd_objects (alter (add_onDispose (CallRemoveDecoration d)) d) wa in
        let wc := upd_objects
                    (alter (upd_marker (add_marker_onDispose (CallDecorationDispose d))) d) wb in
        let wd := upd_objects (alter (set_element (Some e)) d) wc in
        let we := upd_this (λ r, set_decorationElements
                                   (<[d := e]> (_decorationElements r)) r) wd in
        (e, upd_this (λ r, set_container (_container r ++ [e]) r) we)
      end in
    fire_onRender d (_refreshStyle d e w1)
  end.

Definition count_pass (w : World) : World :=
  {| this := this w; _bufferService := _bufferService w;
     dimensions := dimensions w; decorations := decorations w;
     objects := objects w; next_object := next_object w;
     document := document w; next_node := next_node w;
     raf_queue := raf_queue w; raf_next := raf_next w;
     passes := S (passes w) |}.

(** [refreshDecorations] (lines 56-60), counting the execution. *)
Definition refreshDecorations (w : World) : World :=
  foldl (λ acc d, _renderDecoration d acc) (count_pass w) (decorations w).

(** The callback given to [requestAnimationFrame] in [_queueRefresh]. *)
Definition frame_callback (w : World) : World :=
  upd_this (set_animationFrame None) (refreshDecorations w).

(** [dispose] (lines 40-44): the container leaves the screen element (its
    children stay its children), the map is cleared, the subscriptions are
    released.  A frame callback already requested is not cancelled. *)
Definition dispose (w : World) : World :=
  upd_this (λ r,
    {| _decorationElements := ∅; _animationFrame := _animationFrame r;
       _altBufferIsActive := _altBufferIsActive r; _container := _container r;
       container_attached := false; subscriptions_live := false |}) w.

(** ** The collaborators

    The decoration service, the decoration and marker classes and the host's
    frame loop are not part of the renderer's source file. *)

Definition run_decoration_listener (l : DecorationListener) (w : World) : World :=
  match l with
  | CallRemoveDecoration d => _removeDecoration d w
  end.

Definition set_disposed (dec : Decoration) : Decoration :=
  {| marker := marker dec; options := options dec; element := element dec;
     isDisposed := true; onDispose := onDispose dec;
     disposeFired := S (disposeFired dec);
     onRender_requests := onRender_requests dec |}.

(** Modelled from the spec: [Decoration.dispose] and the decoration service's
    reaction to it are missing from the sources.  The disposal signal
    "fires once": a disposed decoration ignores further calls.  The service
    "owns the set of live decorations" and emits "decoration removed" with the
    removed decoration as payload, so disposal takes the decoration out of
    [decorations] and notifies the subscribers. *)
Definition decoration_dispose (d : nat) (w : World) : World :=
  match objects w !! d with
  | None => w
  | Some dec =>
    if isDisposed dec then w
    else
      let w1 := upd_objects (alter set_disposed d) w in
      let w2 := foldl (λ acc l, run_decoration_listener l acc) w1 (onDispose dec) in
      let w3 := upd_decorations (filter (λ c, c ≠ d)) w2 in
      deliver (onDecorationRemoved d) w3
  end.

Definition run_marker_listener (l : MarkerListener) (w : World) : World :=
  match l with
  | CallDecorationDispose d => decoration_dispose d w
  end.

Definition set_marker_disposed (m : Marker) : Marker :=
  {| line := line m; marker_isDisposed := true;
     marker_onDispose := marker_onDispose m |}.

Definition set_line (l : Z) (m : Marker) : Marker :=
  {| line := l; marker_isDisposed := marker_isDisposed m;
     marker_onDispose := marker_onDispose m |}.

(** Modelled from the spec: [Marker.dispose] is missing from the sources.  The
    marker "signals invalidation when the line it tracks is evicted"; the
    signal is delivered to its disposal listeners, once.  Argument [d] is the
    decoration that owns the marker. *)
Definition marker_dispose (d : nat) (w : World) : World :=
  match objects w !! d with
  | None => w
  | Some dec =>
    if marker_isDisposed (marker dec) then w
    else
      let w1 := upd_objects (alter (upd_marker set_marker_disposed) d) w in
      foldl (λ acc l, run_marker_listener l acc) w1 (marker_onDispose (marker dec))
  end.

(** Modelled from the spec: the decoration service's registration is missing
    from the sources.  It creates the decoration with its marker and options,
    appends it to the insertion-ordered view of live decorations and emits
    "decoration added". *)
Definition registerDecoration (l : Z) (o : DecorationOptions) (hook : nat)
    (w : World) : World :=
  let d := next_object w in
  let dec :=
    {| marker := {| line := l; marker_isDisposed := false; marker_onDispose := [] |};
       options := o; element := None; isDisposed := false; onDispose := [];
       disposeFired := 0; onRender_requests := hook |} in
  deliver (onDecorationRegistered d)
    {| this := this w; _bufferService := _bufferService w;
       dimensions := dimensions w; decorations := decorations w ++ [d];
       objects := <[d := dec]> (objects w); next_object := S d;
       document := document w; next_node := next_node w;
       raf_queue := raf_queue w; raf_next := raf_next w; passes := passes w |}.

(** The host's display frame: the callbacks queued so far run, those queued
    meanwhile wait for the following frame. *)
Definition animation_frame (w : World) : World :=
  foldl (λ acc _, frame_callback acc)
    {| this := this w; _bufferService := _bufferService w;
       dimensions := dimensions w; decorations := decorations w;
       objects := objects w; next_object := next_object w;
       document := document w; next_node := next_node w;
       raf_queue := []; raf_next := raf_next w; passes := passes w |}
    (raf_queue w).

(** What can happen to a renderer between its construction and any later
    moment. *)
Inductive Action :=
  | Notify (n : Notification)
  | SetBuffer (b : BufferService)
  | SetDimensions (dm : RenderDimensions)
  | SetMarkerLine (d : nat) (l : Z)
  | RegisterDecoration (l : Z) (o : DecorationOptions) (hook : nat)
  | DisposeDecoration (d : nat)
  | DisposeMarker (d : nat)
  | AnimationFrame
  | CallRefreshDecorations
  | CallDispose.

Definition step (a : Action) (w : World) : World :=
  match a with
  | Notify n => deliver n w
  | SetBuffer b =>
    {| this := this w; _bufferService := b;
       dimensions := dimensions w; decorations := decorations w;
       objects := objects w; next_object := next_object w;
       document := document w; next_node := next_node w;
       raf_queue := raf_queue w; raf_next := raf_next w; passes := passes w |}
  | SetDimensions dm =>
    {| this := this w; _bufferService := _bufferService w;
       dimensions := dm; decorations := decorations w;
       objects := objects w; next_object := next_object w;
       document := document w; next_node := next_node w;
       raf_queue := raf_queue w; raf_next := raf_next w; passes := passes w |}
  | SetMarkerLine d l => upd_objects (alter (upd_marker (set_line l)) d) w
  | RegisterDecoration l o hook => registerDecoration l o hook w
  | DisposeDecoration d => decoration_dispose d w
  | DisposeMarker d => marker_dispose d w
  | AnimationFrame => animation_frame w
  | CallRefreshDecorations => refreshDecorations w
  | CallDispose => dispose w
  end.

(** The state the constructor leaves: an empty map, no frame requested, the
    container attached and empty, every subscription in place. *)
Definition constructed (b : BufferService) (dm : RenderDimensions) : World :=
  {| this := {| _decorationElements := ∅; _animationFrame := None;
                _altBufferIsActive := false; _container := [];
                container_attached := true; subscriptions_live := true |};
     _bufferService := b; dimensions := dm; decorations := [];
     objects := ∅; next_object := 0%nat; document := ∅; next_node := 0%nat;
     raf_queue := []; raf_next := 1%nat; passes := 0%nat |}.

Definition run (tr : list Action) (w : World) : World :=
  foldl (λ acc a, step a acc) w tr.

(** Actions that change neither the registry nor the map: notifications
    other than "decoration removed", scrolling, resizing, switching buffers,
    markers moving. *)
Definition quiet (a : Action) : bool :=
  match a with
  | Notify (onDecorationRemoved _) => false
  | Notify _ | SetBuffer _ | SetDimensions _ | SetMarkerLine _ _ => true
  | _ => false
  end.

(** ** Observations used in the statements *)

Definition hidden (el : Element) : Prop := style_display el = DisplayNone.

Definition bound (w : World) (d : nat) : Prop :=
  is_Some (_decorationElements (this w) !! d).

Definition live (w : World) (d : nat) : Prop := d ∈ decorations w.

Definition pending (w : World) : Prop := is_Some (_animationFrame (this w)).

Definition scheduled (w : World) : nat := length (raf_queue w).

Definition sched_of (w : World) : option nat * list nat :=
  (_animationFrame (this w), raf_queue w).

(** The refresh requests that the render listeners of the live decorations
    issue during one execution of the refresh body. *)
Definition reentrant_requests (w : World) : nat :=
  foldr (λ d n,
           match objects w !! d with
           | Some dec => (onRender_requests dec + n)%nat
           | None => n
           end) 0%nat (decorations w).

Local Close Scope Z_scope.

(** ** Relations between two states *)

(** [same_static w w']: the fields no operation of the refresh path writes
    are the same in both. *)
Definition same_static (w w' : World) : Prop :=
  _bufferService w' = _bufferService w ∧
  dimensions w' = dimensions w ∧
  _altBufferIsActive (this w') = _altBufferIsActive (this w) ∧
  subscriptions_live (this w') = subscriptions_live (this w) ∧
  passes w' = passes w ∧
  decorations w' = decorations w.

(** [same_core w w']: the map, the container and the two stores are the
    same in both. *)
Definition same_core (w w' : World) : Prop :=
  _decorationElements (this w') = _decorationElements (this w) ∧
  _container (this w') = _container (this w) ∧
  objects w' = objects w ∧
  next_object w' = next_object w ∧
  document w' = document w ∧
  next_node w' = next_node w.

(** [removes w w']: [w'] is [w] with some entries of the map deleted and
    their elements detached from the container; an element whose entry went
    is no longer a child. *)
Definition removes (w w' : World) : Prop :=
  same_static w w' ∧
  sched_of w' = sched_of w ∧
  objects w' = objects w ∧
  next_object w' = next_object w ∧
  document w' = document w ∧
  next_node w' = next_node w ∧
  _decorationElements (this w') ⊆ _decorationElements (this w) ∧
  (∀ c, c ∈ _container (this w') → c ∈ _container (this w)) ∧
  (∀ d e, _decorationElements (this w) !! d = Some e →
          _decorationElements (this w') !! d = None →
          e ∉ _container (this w')).

(** [lifecycle_eq dec dec']: an update of a decoration that keeps its
    lifecycle fields. *)
Definition lifecycle_eq (dec dec' : Decoration) : Prop :=
  isDisposed dec' = isDisposed dec ∧
  onDispose dec' = onDispose dec ∧
  marker_onDispose (marker dec') = marker_onDispose (marker dec) ∧
  element dec' = element dec ∧
  disposeFired dec' = disposeFired dec.

(** ** Invariants *)

(** At most one callback waits, and it is the one the renderer remembers. *)
Definition sched_ok (w : World) : Prop :=
  match _animationFrame (this w) with
  | None => raf_queue w = []
  | Some h => raf_queue w = [h]
  end.

(** What holds of the map, the registry and the stores in every state the
    renderer can reach: a mapped decoration is live, a live decoration is an
    undisposed object, a mapped decoration carries the two listeners of the
    creation branch and points at its element, mapped elements are allocated
    nodes and no two decorations share one, and the disposal signal of an
    object has fired once if the object is disposed and never otherwise. *)
Record InvCore (w : World) : Prop := {
  inv_bound_live : ∀ d e,
    _decorationElements (this w) !! d = Some e → d ∈ decorations w;
  inv_live_object : ∀ d,
    d ∈ decorations w →
    ∃ dec, objects w !! d = Some dec ∧ isDisposed dec = false;
  inv_wired : ∀ d e,
    _decorationElements (this w) !! d = Some e →
    ∃ dec, objects w !! d = Some dec ∧
           CallRemoveDecoration d ∈ onDispose dec ∧
           CallDecorationDispose d ∈ marker_onDispose (marker dec) ∧
           element dec = Some e;
  inv_node : ∀ d e,
    _decorationElements (this w) !! d = Some e →
    e < next_node w ∧ is_Some (document w !! e);
  inv_inj : ∀ d1 d2 e,
    _decorationElements (this w) !! d1 = Some e →
    _decorationElements (this w) !! d2 = Some e → d1 = d2;
  inv_object_fresh : ∀ d, is_Some (objects w !! d) → d < next_object w;
  inv_fired : ∀ d dec,
    objects w !! d = Some dec →
    disposeFired dec = if isDisposed dec then 1 else 0;
  inv_own_listeners : ∀ d dec,
    objects w !! d = Some dec →
    (∀ l, l ∈ onDispose dec → l = CallRemoveDecoration d) ∧
    (∀ l, l ∈ marker_onDispose (marker dec) → l = CallDecorationDispose d)
}.

(** Every live decoration has an element. *)
Definition all_bound (w : World) : Prop :=
  ∀ d, d ∈ decorations w → is_Some (_decorationElements (this w) !! d).

(** Every mapped element is a child of the container. *)
Definition InvChildren (w : World) : Prop :=
  ∀ d e, _decorationElements (this w) !! d = Some e → e ∈ _container (this w).

(** [same_geometry el el']: the two records agree on everything but
    [top] and [display]. *)
Definition same_geometry (el el' : Element) : Prop :=
  classList el' = classList el ∧
  style_width el' = style_width el ∧
  style_height el' = style_height el ∧
  style_lineHeight el' = style_lineHeight el ∧
  style_left el' = style_left el ∧
  style_right el' = style_right el.

(** ** The net effect of the two halves of [_renderDecoration] *)

(** What [_refreshStyle] does to the element record. *)
Definition restyle (dec : Decoration) (w : World) (el : Element) : Element :=
  let ln := (line (marker dec) - ydisp (_bufferService w))%Z in
  if ((ln <? 0) || (rows (_bufferService w) <=? ln))%Z
  then set_display DisplayNone el
  else set_display
         (if _altBufferIsActive (this w) then DisplayNone else DisplayBlock)
         (set_top (Px (ln * actualCellHeight (dimensions w))) el).

(** What the creation branch does to the decoration object. *)
Definition bind_object (d e : nat) (dec : Decoration) : Decoration :=
  set_element (Some e)
    (upd_marker (add_marker_onDispose (CallDecorationDispose d))
       (add_onDispose (CallRemoveDecoration d) dec)).

(** The style a refresh pass is to give the element of a decoration. *)
Definition style_ok (w : World) (dec : Decoration) (el : Element) : Prop :=
  let ln := (line (marker dec) - ydisp (_bufferService w))%Z in
  ((ln < 0 ∨ rows (_bufferService w) ≤ ln)%Z → hidden el) ∧
  ((0 ≤ ln < rows (_bufferService w))%Z →
   style_top el = Px (ln * actualCellHeight (dimensions w)) ∧
   style_display el =
     if _altBufferIsActive (this w) then DisplayNone else DisplayBlock).

(** Decoration [d] has that style, if it has an element at all. *)
Definition styled (w : World) (d : nat) : Prop :=
  ∀ e dec el,
    _decorationElements (this w) !! d = Some e →
    objects w !! d = Some dec →
    document w !! e = Some el →
    style_ok w dec el.

(** * Proofs *)

(** ** The embedding at work *)

(** A decoration anchored right, two columns in, three cells wide, on line 4
    of a buffer scrolled by one line: the element made by [_createElement]. *)
Example createElement_anchor_right :
  let w := constructed (Build_BufferService 80 24 1 false)
                       (Build_RenderDimensions 9 17) in
  let dec :=
    {| marker := {| line := 4; marker_isDisposed := false; marker_onDispose := [] |};
       options := Build_DecorationOptions (Some 3%Z) None (Some 2%Z) (Some AnchorRight);
       element := None; isDisposed := false; onDispose := [];
       disposeFired := 0; onRender_requests := 0 |} in
  _createElement dec w =
  {| classList := ["xterm-decoration"%string];
     style_width := Px 27; style_height := Px 17; style_top := Px 51;
     style_lineHeight := Px 17; style_left := Unset; style_right := Px 18;
     style_display := DisplayUnset |}.
Proof. reflexivity. Qed.

(** A decoration on line 30 of a 24-row viewport is hidden by the first
    pass; once the buffer is scrolled by 10 lines the next frame shows it,
    20 rows down. *)
Example scrolled_into_view :
  let w1 := run [RegisterDecoration 30 (Build_DecorationOptions None None None None) 0;
                 AnimationFrame]
                (constructed (Build_BufferService 80 24 0 false)
                             (Build_RenderDimensions 9 17)) in
  let w2 := run [SetBuffer (Build_BufferService 80 24 10 false);
                 Notify onRenderedBufferChange; AnimationFrame] w1 in
  (style_display <$> document w1 !! 0) = Some DisplayNone ∧
  (style_display <$> document w2 !! 0) = Some DisplayBlock ∧
  (style_top <$> document w2 !! 0) = Some (Px 340) ∧
  next_node w2 = 1.
Proof. vm_compute. done. Qed.

(** Teardown: the map is emptied and the container detached; the callback
    that was waiting still runs at the next frame. *)
Example dispose_then_late_frame :
  let w := run [RegisterDecoration 2 (Build_DecorationOptions None None None None) 0;
                CallDispose]
               (constructed (Build_BufferService 80 24 0 false)
                            (Build_RenderDimensions 9 17)) in
  _decorationElements (this w) = ∅ ∧
  container_attached (this w) = false ∧
  scheduled w = 1 ∧
  passes (animation_frame w) = 1 ∧
  scheduled (animation_frame w) = 0.
Proof. vm_compute. done. Qed.

Lemma World_eq (w w' : World) :
  this w = this w' →
  _bufferService w = _bufferService w' →
  dimensions w = dimensions w' →
  decorations w = decorations w' →
  objects w = objects w' →
  next_object w = next_object w' →
  document w = document w' →
  next_node w = next_node w' →
  raf_queue w = raf_queue w' →
  raf_next w = raf_next w' →
  passes w = passes w' →
  w = w'.
Proof. destruct w, w'. simpl. by intros -> -> -> -> -> -> -> -> -> -> ->. Qed.

Lemma same_static_refl w : same_static w w.
Proof. by repeat split. Qed.

Lemma same_static_trans w1 w2 w3 :
  same_static w1 w2 → same_static w2 w3 → same_static w1 w3.
Proof.
  unfold same_static. intros (?&?&?&?&?&?) (?&?&?&?&?&?).
  repeat split; congruence.
Qed.

Lemma same_core_refl w : same_core w w.
Proof. by repeat split. Qed.

Lemma same_core_trans w1 w2 w3 :
  same_core w1 w2 → same_core w2 w3 → same_core w1 w3.
Proof.
  unfold same_core. intros (?&?&?&?&?&?) (?&?&?&?&?&?).
  repeat split; congruence.
Qed.

(** ** The scheduler *)

Lemma sched_ok_ext w w' : sched_of w' = sched_of w → sched_ok w → sched_ok w'.
Proof. unfold sched_ok, sched_of. intros [= -> ->]. done. Qed.

Lemma queueRefresh_pending w : pending w → _queueRefresh w = w.
Proof. unfold pending, _queueRefresh. intros [h ->]. done. Qed.

Lemma queueRefresh_idle w :
  _animationFrame (this w) = None →
  sched_of (_queueRefresh w) = (Some (raf_next w), raf_queue w ++ [raf_next w]).
Proof. unfold _queueRefresh. intros ->. done. Qed.

Lemma queueRefresh_static w : same_static w (_queueRefresh w).
Proof. unfold _queueRefresh. destruct (_animationFrame (this w)); by repeat split. Qed.

Lemma queueRefresh_core w : same_core w (_queueRefresh w).
Proof. unfold _queueRefresh. destruct (_animationFrame (this w)); by repeat split. Qed.

Lemma queueRefresh_sched_ok w : sched_ok w → sched_ok (_queueRefresh w).
Proof.
  intros H. destruct (_animationFrame (this w)) as [h|] eqn:E.
  - rewrite queueRefresh_pending; [done | unfold pending; rewrite E; eauto].
  - pose proof (queueRefresh_idle w E) as Hq. unfold sched_of in Hq.
    injection Hq as Ha Hr. unfold sched_ok in *. rewrite E in H.
    rewrite Ha, Hr, H. done.
Qed.

Lemma queueRefresh_makes_pending w : pending (_queueRefresh w).
Proof.
  unfold pending, _queueRefresh.
  destruct (_animationFrame (this w)) eqn:E; simpl; [rewrite E|]; eauto.
Qed.

Lemma removeDecoration_static d w : same_static w (_removeDecoration d w).
Proof.
  unfold _removeDecoration. destruct (_ !! d); by repeat split.
Qed.

Lemma removeDecoration_sched d w : sched_of (_removeDecoration d w) = sched_of w.
Proof. unfold _removeDecoration. by destruct (_ !! d). Qed.

Lemma deliver_sched_ok n w : sched_ok w → sched_ok (deliver n w).
Proof.
  unfold deliver. intros H. destruct (subscriptions_live _); [|done].
  destruct n; auto using queueRefresh_sched_ok.
  eapply sched_ok_ext; [|done]. apply removeDecoration_sched.
Qed.

Lemma deliver_pending n w : pending w → sched_of (deliver n w) = sched_of w.
Proof.
  unfold deliver. intros H. destruct (subscriptions_live _); [|done].
  destruct n; rewrite ?queueRefresh_pending by done; try done.
  apply removeDecoration_sched.
Qed.

Lemma pending_ext w w' : sched_of w' = sched_of w → pending w → pending w'.
Proof. unfold pending, sched_of. by intros [= -> _]. Qed.

Lemma deliver_refresh_static n w :
  n ≠ onBufferActivate → (∀ d, n ≠ onDecorationRemoved d) →
  same_static w (deliver n w) ∧ same_core w (deliver n w).
Proof.
  intros Hn Hr. unfold deliver. destruct (subscriptions_live _).
  - destruct n; try done;
      auto using queueRefresh_static, queueRefresh_core.
    by destruct (Hr d).
  - split; [apply same_static_refl | apply same_core_refl].
Qed.

Lemma iter_requests_static k w :
  same_static w (Nat.iter k (deliver onRenderedBufferChange) w) ∧
  same_core w (Nat.iter k (deliver onRenderedBufferChange) w).
Proof.
  induction k as [|k [IHs IHc]]; simpl.
  - split; [apply same_static_refl | apply same_core_refl].
  - destruct (deliver_refresh_static onRenderedBufferChange
                (Nat.iter k (deliver onRenderedBufferChange) w)) as [Hs Hc];
      [done..|].
    split; [eapply same_static_trans | eapply same_core_trans]; eauto.
Qed.

Lemma iter_requests_sched_ok k w :
  sched_ok w → sched_ok (Nat.iter k (deliver onRenderedBufferChange) w).
Proof. induction k; simpl; auto using deliver_sched_ok. Qed.

Lemma iter_requests_pending k w :
  pending w →
  sched_of (Nat.iter k (deliver onRenderedBufferChange) w) = sched_of w.
Proof.
  intros H. induction k as [|k IH]; simpl; [done|].
  rewrite deliver_pending; [done|]. eapply pending_ext; [|done]. done.
Qed.

Lemma fire_onRender_static d w :
  same_static w (fire_onRender d w) ∧ same_core w (fire_onRender d w).
Proof.
  unfold fire_onRender. destruct (objects w !! d).
  - apply iter_requests_static.
  - split; [apply same_static_refl | apply same_core_refl].
Qed.

Lemma fire_onRender_sched_ok d w : sched_ok w → sched_ok (fire_onRender d w).
Proof.
  unfold fire_onRender. destruct (objects w !! d); [|done].
  apply iter_requests_sched_ok.
Qed.

Lemma fire_onRender_pending d w :
  pending w → sched_of (fire_onRender d w) = sched_of w.
Proof.
  unfold fire_onRender. destruct (objects w !! d); [|done].
  apply iter_requests_pending.
Qed.

Lemma refreshStyle_static d e w : same_static w (_refreshStyle d e w).
Proof.
  unfold _refreshStyle. destruct (objects w !! d); [|apply same_static_refl].
  destruct (_ || _); by repeat split.
Qed.

Lemma refreshStyle_sched d e w : sched_of (_refreshStyle d e w) = sched_of w.
Proof.
  unfold _refreshStyle. destruct (objects w !! d); [|done].
  by destruct (_ || _).
Qed.

(** The state between the creation branch and the style refresh. *)
Lemma renderDecoration_unfold d w :
  ∃ e w1,
    _renderDecoration d w =
      match objects w !! d with
      | None => w
      | Some _ => fire_onRender d (_refreshStyle d e w1)
      end ∧
    same_static w w1 ∧ sched_of w1 = sched_of w.
Proof.
  unfold _renderDecoration. destruct (objects w !! d) as [dec|].
  - destruct (_decorationElements (this w) !! d) as [e|].
    + exists e, w. split; [done|]. split; [apply same_static_refl | done].
    + eexists _, _. split; [done|]. by repeat split.
  - exists 0, w. split; [done|]. split; [apply same_static_refl | done].
Qed.

Lemma renderDecoration_static d w : same_static w (_renderDecoration d w).
Proof.
  destruct (renderDecoration_unfold d w) as (e & w1 & -> & Hs & _).
  destruct (objects w !! d); [|apply same_static_refl].
  eapply same_static_trans; [done|].
  eapply same_static_trans; [apply refreshStyle_static|].
  apply fire_onRender_static.
Qed.

Lemma renderDecoration_sched_ok d w : sched_ok w → sched_ok (_renderDecoration d w).
Proof.
  intros H. destruct (renderDecoration_unfold d w) as (e & w1 & -> & _ & Hq).
  destruct (objects w !! d); [|done].
  apply fire_onRender_sched_ok. eapply sched_ok_ext; [apply refreshStyle_sched|].
  by eapply sched_ok_ext.
Qed.

Lemma renderDecoration_pending d w :
  pending w → sched_of (_renderDecoration d w) = sched_of w.
Proof.
  intros H. destruct (renderDecoration_unfold d w) as (e & w1 & -> & _ & Hq).
  destruct (objects w !! d); [|done].
  rewrite fire_onRender_pending.
  - by rewrite refreshStyle_sched.
  - eapply pending_ext; [apply refreshStyle_sched|]. by eapply pending_ext.
Qed.

Lemma render_all_static ds w :
  same_static w (foldl (λ acc d, _renderDecoration d acc) w ds).
Proof.
  revert w. induction ds as [|d ds IH]; intros w; simpl.
  - apply same_static_refl.
  - eapply same_static_trans; [apply renderDecoration_static | apply IH].
Qed.

Lemma render_all_sched_ok ds w :
  sched_ok w → sched_ok (foldl (λ acc d, _renderDecoration d acc) w ds).
Proof.
  revert w. induction ds as [|d ds IH]; intros w H; simpl; [done|].
  apply IH. by apply renderDecoration_sched_ok.
Qed.

Lemma render_all_pending ds w :
  pending w →
  sched_of (foldl (λ acc d, _renderDecoration d acc) w ds) = sched_of w.
Proof.
  revert w. induction ds as [|d ds IH]; intros w H; simpl; [done|].
  rewrite IH.
  - by apply renderDecoration_pending.
  - eapply pending_ext; [|done]. by apply renderDecoration_pending.
Qed.

Lemma refreshDecorations_passes w :
  passes (refreshDecorations w) = S (passes w).
Proof.
  unfold refreshDecorations.
  destruct (render_all_static (decorations w) (count_pass w))
    as (_ & _ & _ & _ & -> & _).
  done.
Qed.

Lemma refreshDecorations_sched_ok w : sched_ok w → sched_ok (refreshDecorations w).
Proof. intros H. unfold refreshDecorations. by apply render_all_sched_ok. Qed.

Lemma refreshDecorations_pending w :
  pending w → sched_of (refreshDecorations w) = sched_of w.
Proof. intros H. unfold refreshDecorations. by rewrite render_all_pending. Qed.

(** A frame with one waiting callback: the body runs once, with the marker
    still set, and leaves nothing scheduled. *)
Lemma animation_frame_pending w :
  sched_ok w → pending w →
  passes (animation_frame w) = S (passes w) ∧
  sched_of (animation_frame w) = (None, []).
Proof.
  unfold sched_ok, pending. intros Hok [h Hh]. rewrite Hh in Hok.
  unfold animation_frame. rewrite Hok. simpl. unfold frame_callback.
  set (w1 := {| this := this w; raf_queue := [] |}).
  assert (Hp : pending w1) by (unfold pending; simpl; eauto).
  split.
  - simpl. by rewrite refreshDecorations_passes.
  - pose proof (refreshDecorations_pending w1 Hp) as Hq.
    unfold sched_of in *. simpl. injection Hq as _ ->. done.
Qed.

Lemma animation_frame_idle w :
  sched_ok w → _animationFrame (this w) = None →
  passes (animation_frame w) = passes w ∧
  sched_of (animation_frame w) = (None, []).
Proof.
  unfold sched_ok. intros Hok Hn. rewrite Hn in Hok.
  unfold animation_frame, sched_of. rewrite Hok. simpl. by rewrite Hn.
Qed.

Lemma animation_frame_sched_ok w : sched_ok w → sched_ok (animation_frame w).
Proof.
  intros H. destruct (_animationFrame (this w)) as [h|] eqn:E.
  - destruct (animation_frame_pending w H) as [_ Hq];
      [unfold pending; rewrite E; eauto|].
    unfold sched_of in Hq. injection Hq as Ha Hr.
    unfold sched_ok. by rewrite Ha, Hr.
  - destruct (animation_frame_idle w H E) as [_ Hq].
    unfold sched_of in Hq. injection Hq as Ha Hr.
    unfold sched_ok. by rewrite Ha, Hr.
Qed.

(** ** Operations that only take elements away *)

Lemma removes_refl w : removes w w.
Proof.
  repeat split; try done. intros d e H1 H2. congruence.
Qed.

Lemma removes_trans w1 w2 w3 : removes w1 w2 → removes w2 w3 → removes w1 w3.
Proof.
  intros (Hs1 & Hq1 & Ho1 & Hn1 & Hd1 & Hm1 & Hsub1 & Hc1 & Hr1)
         (Hs2 & Hq2 & Ho2 & Hn2 & Hd2 & Hm2 & Hsub2 & Hc2 & Hr2).
  split; [by eapply same_static_trans|].
  repeat split; try congruence.
  - by etrans.
  - auto.
  - intros d e H1 H3.
    destruct (_decorationElements (this w2) !! d) as [e'|] eqn:E2.
    + assert (e' = e) as ->.
      { eapply lookup_weaken in E2; [|done]. congruence. }
      eauto.
    + intros Hin. eapply Hr1; eauto.
Qed.

Lemma removeDecoration_map d w :
  _decorationElements (this (_removeDecoration d w)) =
  delete d (_decorationElements (this w)).
Proof. unfold _removeDecoration. by destruct (_ !! d). Qed.

Lemma removeDecoration_removes d w : removes w (_removeDecoration d w).
Proof.
  split; [apply removeDecoration_static|].
  split; [apply removeDecoration_sched|].
  rewrite removeDecoration_map.
  unfold _removeDecoration.
  destruct (_decorationElements (this w) !! d) as [e|] eqn:E; simpl;
    repeat split; try done; try apply delete_subseteq.
  - intros c [_ ?]%list_elem_of_filter. done.
  - intros d' e' H1 H2 [Hne _]%list_elem_of_filter.
    destruct (decide (d' = d)) as [->|Hd]; [congruence|].
    rewrite lookup_delete_ne in H2 by done. congruence.
  - intros d' e' H1 H2.
    destruct (decide (d' = d)) as [->|Hd]; [congruence|].
    rewrite lookup_delete_ne in H2 by done. congruence.
Qed.

Lemma removeDecoration_unbinds d w :
  _decorationElements (this (_removeDecoration d w)) !! d = None.
Proof. rewrite removeDecoration_map. apply lookup_delete_eq. Qed.

Lemma removes_unbound w w' d :
  removes w w' →
  _decorationElements (this w) !! d = None →
  _decorationElements (this w') !! d = None.
Proof.
  intros (_ & _ & _ & _ & _ & _ & Hsub & _) Hn.
  destruct (_decorationElements (this w') !! d) eqn:E; [|done].
  eapply lookup_weaken in E; [|done]. congruence.
Qed.

Lemma run_listeners_removes ls w :
  removes w (foldl (λ acc l, run_decoration_listener l acc) w ls) ∧
  ∀ d, CallRemoveDecoration d ∈ ls →
       _decorationElements
         (this (foldl (λ acc l, run_decoration_listener l acc) w ls)) !! d = None.
Proof.
  revert w. induction ls as [|[d'] ls IH]; intros w; simpl.
  - split; [apply removes_refl|]. intros d H. by apply elem_of_nil in H.
  - destruct (IH (_removeDecoration d' w)) as [Hr Hu]. split.
    + eapply removes_trans; [apply removeDecoration_removes | done].
    + intros d [[= ->]|Hin]%elem_of_cons; [|by apply Hu].
      eapply removes_unbound; [done|]. apply removeDecoration_unbinds.
Qed.

Lemma deliver_removed_removes d w : removes w (deliver (onDecorationRemoved d) w).
Proof.
  unfold deliver. destruct (subscriptions_live _).
  - apply removeDecoration_removes.
  - apply removes_refl.
Qed.

(** ** The map invariant *)

(** The invariant only reads the map, the registry and the two stores, and it
    survives the loss of map entries. *)
Lemma InvCore_shrink w w' :
  decorations w' = decorations w →
  objects w' = objects w →
  next_object w' = next_object w →
  document w' = document w →
  next_node w' = next_node w →
  _decorationElements (this w') ⊆ _decorationElements (this w) →
  InvCore w → InvCore w'.
Proof.
  intros Hd Ho Hno Hdoc Hnn Hsub [I1 I2 I3 I4 I5 I6 I7 I8].
  split; rewrite ?Hd, ?Ho, ?Hno, ?Hdoc, ?Hnn; eauto using lookup_weaken.
Qed.

Lemma InvCore_removes w w' : removes w w' → InvCore w → InvCore w'.
Proof.
  intros ((_&_&_&_&_&Hd) & _ & Ho & Hno & Hdoc & Hnn & Hsub & _).
  by apply InvCore_shrink.
Qed.

Lemma InvCore_same_core w w' :
  decorations w' = decorations w → same_core w w' → InvCore w → InvCore w'.
Proof.
  intros Hd (Hm & _ & Ho & Hno & Hdoc & Hnn). apply InvCore_shrink; try done.
  by rewrite Hm.
Qed.

Lemma InvCore_constructed b dm : InvCore (constructed b dm).
Proof.
  split; simpl; try (intros; simplify_map_eq; fail).
  - intros d H. by apply elem_of_nil in H.
  - intros d [? H]. by rewrite lookup_empty in H.
Qed.

Lemma InvCore_alter_object (f : Decoration → Decoration) d w :
  (∀ dec, lifecycle_eq dec (f dec)) →
  InvCore w → InvCore (upd_objects (alter f d) w).
Proof.
  intros Hf [I1 I2 I3 I4 I5 I6 I7 I8].
  assert (Hlk : ∀ x dec', alter f d (objects w) !! x = Some dec' →
                ∃ dec, objects w !! x = Some dec ∧ lifecycle_eq dec dec').
  { intros x dec'. rewrite lookup_alter. case_decide as Hx.
    - subst x. destruct (objects w !! d) as [dec|]; [|done].
      intros [= <-]. eauto.
    - intros H. exists dec'. split; [done|]. by repeat split. }
  assert (Hkl : ∀ x dec, objects w !! x = Some dec →
                ∃ dec', alter f d (objects w) !! x = Some dec' ∧
                        lifecycle_eq dec dec').
  { intros x dec H. rewrite lookup_alter. case_decide as Hx.
    - subst x. rewrite H. simpl. eauto.
    - exists dec. split; [done|]. by repeat split. }
  split; simpl; eauto.
  - intros x Hx. destruct (I2 x Hx) as (dec & Hdec & Hnd).
    destruct (Hkl x dec Hdec) as (dec' & ? & (? & _)). exists dec'.
    split; [done|]. congruence.
  - intros x e Hx. destruct (I3 x e Hx) as (dec & Hdec & H1 & H2 & H3).
    destruct (Hkl x dec Hdec) as (dec' & ? & (? & ? & ? & ? & ?)). exists dec'.
    split; [done|]. repeat split; congruence.
  - intros x [dec' (dec & Hdec & _)%Hlk]. eauto.
  - intros x dec' (dec & Hdec & (E1 & E2 & E3 & E4 & E5))%Hlk.
    rewrite E1, E5. eauto.
  - intros x dec' (dec & Hdec & (E1 & E2 & E3 & E4 & E5))%Hlk.
    rewrite E2, E3. eauto.
Qed.

(** ** Disposal *)

Lemma removeDecoration_upd_objects f d w :
  _removeDecoration d (upd_objects f w) = upd_objects f (_removeDecoration d w).
Proof. unfold _removeDecoration. simpl. by destruct (_ !! d). Qed.

Lemma removeDecoration_upd_decorations f d w :
  _removeDecoration d (upd_decorations f w) =
  upd_decorations f (_removeDecoration d w).
Proof. unfold _removeDecoration. simpl. by destruct (_ !! d). Qed.

Lemma run_listeners_upd_objects f ls w :
  foldl (λ acc l, run_decoration_listener l acc) (upd_objects f w) ls =
  upd_objects f (foldl (λ acc l, run_decoration_listener l acc) w ls).
Proof.
  revert w. induction ls as [|[d] ls IH]; intros w; simpl; [done|].
  by rewrite removeDecoration_upd_objects, IH.
Qed.

Lemma deliver_removed_upd f g d w :
  deliver (onDecorationRemoved d) (upd_decorations g (upd_objects f w)) =
  upd_decorations g (upd_objects f (deliver (onDecorationRemoved d) w)).
Proof.
  unfold deliver. simpl. destruct (subscriptions_live _); [|done].
  by rewrite removeDecoration_upd_decorations, removeDecoration_upd_objects.
Qed.

(** Disposal of a live decoration: the renderer's part only takes elements
    away; the decoration is flagged and leaves the registry. *)
Lemma decoration_dispose_live d dec w :
  objects w !! d = Some dec → isDisposed dec = false →
  ∃ w2,
    removes w w2 ∧
    (CallRemoveDecoration d ∈ onDispose dec ∨ subscriptions_live (this w) = true →
     _decorationElements (this w2) !! d = None) ∧
    decoration_dispose d w =
      upd_decorations (filter (λ c, c ≠ d)) (upd_objects (alter set_disposed d) w2).
Proof.
  intros Hd Hn. unfold decoration_dispose. rewrite Hd, Hn.
  rewrite run_listeners_upd_objects, deliver_removed_upd.
  destruct (run_listeners_removes (onDispose dec) w) as [Hr Hu].
  set (w1 := foldl _ w (onDispose dec)) in *.
  exists (deliver (onDecorationRemoved d) w1). split; [|split; [|done]].
  - eapply removes_trans; [done | apply deliver_removed_removes].
  - intros [Hin|Hsub].
    + eapply removes_unbound; [apply deliver_removed_removes | by apply Hu].
    + unfold deliver.
      destruct Hr as ((_&_&_&->&_) & _). rewrite Hsub.
      apply removeDecoration_unbinds.
Qed.

Lemma decoration_dispose_disposed d w :
  (∀ dec, objects w !! d = Some dec → isDisposed dec = true) →
  decoration_dispose d w = w.
Proof.
  intros H. unfold decoration_dispose.
  destruct (objects w !! d) as [dec|]; [|done]. by rewrite (H dec).
Qed.

Lemma InvCore_retire d w :
  _decorationElements (this w) !! d = None →
  (∀ dec, objects w !! d = Some dec → isDisposed dec = false) →
  InvCore w →
  InvCore (upd_decorations (filter (λ c, c ≠ d)) (upd_objects (alter set_disposed d) w)).
Proof.
  intros Hu Hlive [I1 I2 I3 I4 I5 I6 I7 I8].
  assert (Hne : ∀ x e, _decorationElements (this w) !! x = Some e → x ≠ d)
    by (intros x e H ->; congruence).
  split; simpl.
  - intros x e H. apply list_elem_of_filter. eauto.
  - intros x [Hx Hin]%list_elem_of_filter.
    rewrite lookup_alter_ne by done. eauto.
  - intros x e H. rewrite lookup_alter_ne by (symmetry; eauto). eauto.
  - eauto.
  - eauto.
  - intros x [dec' H]. apply I6. rewrite lookup_alter in H.
    case_decide; [subst x; destruct (objects w !! d); by eauto | by eauto].
  - intros x dec'. rewrite lookup_alter. case_decide as Hx.
    + subst x. destruct (objects w !! d) as [dec|] eqn:E; [|done].
      intros [= <-]. simpl. specialize (I7 d dec E).
      rewrite (Hlive dec eq_refl) in I7. by rewrite I7.
    + eauto.
  - intros x dec'. rewrite lookup_alter. case_decide as Hx.
    + subst x. destruct (objects w !! d) as [dec|] eqn:E; [|done].
      intros [= <-]. simpl. eauto.
    + eauto.
Qed.

Lemma decoration_dispose_InvCore d w : InvCore w → InvCore (decoration_dispose d w).
Proof.
  intros HI. destruct (objects w !! d) as [dec|] eqn:Hd.
  2: { rewrite decoration_dispose_disposed; [done | congruence]. }
  destruct (isDisposed dec) eqn:Hn.
  { rewrite decoration_dispose_disposed; [done | congruence]. }
  destruct (decoration_dispose_live d dec w Hd Hn) as (w2 & Hr & Hu & ->).
  assert (HI2 : InvCore w2) by by eapply InvCore_removes.
  assert (Ho2 : objects w2 = objects w) by apply Hr.
  apply InvCore_retire; [|rewrite Ho2; congruence|done].
  destruct (_decorationElements (this w) !! d) as [e|] eqn:Hb.
  - apply Hu. left.
    destruct (inv_wired w HI d e Hb) as (dec' & Hd' & Hl & _). congruence.
  - by eapply removes_unbound.
Qed.

Lemma run_marker_listeners_InvCore ls w :
  InvCore w → InvCore (foldl (λ acc l, run_marker_listener l acc) w ls).
Proof.
  revert w. induction ls as [|[d] ls IH]; intros w H; simpl; [done|].
  apply IH. by apply decoration_dispose_InvCore.
Qed.

Lemma upd_marker_lifecycle f :
  (∀ m, marker_onDispose (f m) = marker_onDispose m) →
  ∀ dec, lifecycle_eq dec (upd_marker f dec).
Proof. intros Hf dec. repeat split. apply Hf. Qed.

Lemma marker_dispose_InvCore d w : InvCore w → InvCore (marker_dispose d w).
Proof.
  intros HI. unfold marker_dispose.
  destruct (objects w !! d) as [dec|]; [|done].
  destruct (marker_isDisposed _); [done|].
  apply run_marker_listeners_InvCore, InvCore_alter_object; [|done].
  by apply upd_marker_lifecycle.
Qed.

Lemma registerDecoration_InvCore l o hook w :
  InvCore w → InvCore (registerDecoration l o hook w).
Proof.
  intros [I1 I2 I3 I4 I5 I6 I7 I8]. unfold registerDecoration.
  set (w1 := {| this := this w; next_object := S (next_object w) |}).
  destruct (deliver_refresh_static (onDecorationRegistered (next_object w)) w1)
    as [(_&_&_&_&_&Hd) Hc]; [done..|].
  eapply InvCore_same_core; [done..|].
  assert (Hfresh : objects w !! next_object w = None).
  { destruct (objects w !! next_object w) eqn:E; [|done].
    assert (next_object w < next_object w) by eauto. lia. }
  assert (Hne : ∀ x, is_Some (objects w !! x) → next_object w ≠ x).
  { intros x Hx <-. rewrite Hfresh in Hx. by destruct Hx. }
  split; simpl.
  - intros x e H. apply elem_of_app. eauto.
  - intros x [Hx | ->%list_elem_of_singleton]%elem_of_app.
    + destruct (I2 x Hx) as (dec & ? & ?).
      rewrite lookup_insert_ne by eauto. eauto.
    + rewrite lookup_insert_eq. eauto.
  - intros x e H. destruct (I3 x e H) as (dec & ? & ?).
    rewrite lookup_insert_ne by eauto. eauto.
  - eauto.
  - eauto.
  - intros x. rewrite lookup_insert. case_decide; [subst; lia|].
    intros ?%I6. lia.
  - intros x dec. rewrite lookup_insert. case_decide; [|by eauto].
    by intros [= <-].
  - intros x dec. rewrite lookup_insert. case_decide; [|by eauto].
    intros [= <-]. simpl. split; intros l' Hl; by apply elem_of_nil in Hl.
Qed.

(** ** Rendering one decoration *)

Lemma refreshStyle_restyle d e dec w :
  objects w !! d = Some dec →
  _refreshStyle d e w = upd_document (alter (restyle dec w) e) w.
Proof.
  intros H. unfold _refreshStyle, restyle. rewrite H.
  destruct (_ || _); [done|].
  unfold upd_document. simpl. by rewrite alter_alter_eq.
Qed.

Lemma restyle_ext dec dec' w w' :
  line (marker dec') = line (marker dec) →
  same_static w w' →
  restyle dec' w' = restyle dec w.
Proof.
  intros Hl (Hb & Hd & Ha & _). unfold restyle. by rewrite Hl, Hb, Hd, Ha.
Qed.

Lemma renderDecoration_bound d e dec w :
  objects w !! d = Some dec →
  _decorationElements (this w) !! d = Some e →
  _renderDecoration d w =
  fire_onRender d (upd_document (alter (restyle dec w) e) w).
Proof.
  intros Ho Hm. unfold _renderDecoration. rewrite Ho, Hm.
  by rewrite (refreshStyle_restyle d e dec).
Qed.

Lemma renderDecoration_unbound d dec w :
  objects w !! d = Some dec →
  _decorationElements (this w) !! d = None →
  _renderDecoration d w =
  fire_onRender d
    {| this := set_container (_container (this w) ++ [next_node w])
                 (set_decorationElements
                    (<[d := next_node w]> (_decorationElements (this w)))
                    (this w));
       _bufferService := _bufferService w;
       dimensions := dimensions w; decorations := decorations w;
       objects := <[d := bind_object d (next_node w) dec]> (objects w);
       next_object := next_object w;
       document := <[next_node w := restyle dec w (_createElement dec w)]> (document w);
       next_node := S (next_node w);
       raf_queue := raf_queue w; raf_next := raf_next w;
       passes := passes w |}.
Proof.
  intros Ho Hm. unfold _renderDecoration. rewrite Ho, Hm.
  match goal with
  | |- fire_onRender d (_refreshStyle d ?e ?w1) = _ =>
    assert (Ho1 : objects w1 !! d = Some (bind_object d e dec))
  end.
  { cbn. by rewrite !lookup_alter_eq, Ho. }
  rewrite (refreshStyle_restyle _ _ _ _ Ho1). f_equal.
  apply World_eq; cbn; try reflexivity.
  - rewrite !alter_alter_eq. by apply alter_alt_Some.
  - by rewrite alter_insert_eq.
Qed.

Lemma InvCore_restyle f e w :
  InvCore w → InvCore (upd_document (alter f e) w).
Proof.
  intros [I1 I2 I3 I4 I5 I6 I7 I8]. split; simpl; eauto.
  intros d e' H. destruct (I4 d e' H) as [? ?]. split; [done|].
  by apply lookup_alter_is_Some.
Qed.

Lemma bind_object_lifecycle d e dec :
  isDisposed (bind_object d e dec) = isDisposed dec ∧
  disposeFired (bind_object d e dec) = disposeFired dec ∧
  element (bind_object d e dec) = Some e ∧
  onDispose (bind_object d e dec) = onDispose dec ++ [CallRemoveDecoration d] ∧
  marker_onDispose (marker (bind_object d e dec)) =
    marker_onDispose (marker dec) ++ [CallDecorationDispose d] ∧
  line (marker (bind_object d e dec)) = line (marker dec) ∧
  marker_isDisposed (marker (bind_object d e dec)) = marker_isDisposed (marker dec) ∧
  options (bind_object d e dec) = options dec ∧
  onRender_requests (bind_object d e dec) = onRender_requests dec.
Proof. by repeat split. Qed.

Lemma renderDecoration_InvCore d w :
  d ∈ decorations w → InvCore w → InvCore (_renderDecoration d w).
Proof.
  intros Hlive HI.
  destruct (inv_live_object w HI d Hlive) as (dec & Ho & Hnd).
  destruct (_decorationElements (this w) !! d) as [e|] eqn:Hm.
  - rewrite (renderDecoration_bound d e dec) by done.
    eapply InvCore_same_core;
      [apply fire_onRender_static..|by apply InvCore_restyle].
  - rewrite (renderDecoration_unbound d dec) by done.
    eapply InvCore_same_core; [apply fire_onRender_static..|].
    destruct HI as [I1 I2 I3 I4 I5 I6 I7 I8].
    split; simpl.
    + intros x e. rewrite lookup_insert. case_decide; [by subst x|eauto].
    + intros x Hx. rewrite lookup_insert. case_decide; [subst x|by eauto].
      eexists. split; [done|]. done.
    + intros x e. rewrite !lookup_insert. case_decide as Hx.
      * subst x. intros [= <-]. eexists. split; [done|]. simpl.
        repeat split; apply elem_of_app; right; by apply list_elem_of_singleton.
      * eauto.
    + intros x e. rewrite lookup_insert. case_decide as Hx.
      * intros [= <-]. split; [lia|]. rewrite lookup_insert_eq. eauto.
      * intros H. destruct (I4 x e H) as [Hlt Hs]. split; [lia|].
        rewrite lookup_insert_ne by lia. done.
    + intros x1 x2 e. rewrite !lookup_insert.
      repeat case_decide; subst; try done.
      * intros [= <-] Hx2. apply I4 in Hx2. lia.
      * intros Hx1 [= <-]. apply I4 in Hx1. lia.
      * eauto.
    + intros x. rewrite lookup_insert. case_decide; [subst x|by eauto].
      intros _. apply I6. eauto.
    + intros x dec'. rewrite lookup_insert. case_decide; [subst x|by eauto].
      intros [= <-]. simpl. eauto.
    + intros x dec'. rewrite lookup_insert. case_decide; [subst x|by eauto].
      intros [= <-]. simpl. destruct (I8 d dec Ho) as [H1 H2].
      split; intros l [Hl| ->%list_elem_of_singleton]%elem_of_app; eauto.
Qed.

Lemma render_all_InvCore ds w :
  (∀ d, d ∈ ds → d ∈ decorations w) →
  InvCore w → InvCore (foldl (λ acc d, _renderDecoration d acc) w ds).
Proof.
  revert w. induction ds as [|d ds IH]; intros w Hds HI; simpl; [done|].
  apply IH.
  - intros x Hx.
    destruct (renderDecoration_static d w) as (_&_&_&_&_&->).
    apply Hds. by right.
  - apply renderDecoration_InvCore; [|done]. apply Hds. by left.
Qed.

Lemma count_pass_InvCore w : InvCore w → InvCore (count_pass w).
Proof. by intros []. Qed.

Lemma refreshDecorations_InvCore w : InvCore w → InvCore (refreshDecorations w).
Proof.
  intros HI. unfold refreshDecorations.
  apply render_all_InvCore; [done | by apply count_pass_InvCore].
Qed.

(** ** Every reachable state satisfies the invariants *)

Lemma deliver_InvCore n w : InvCore w → InvCore (deliver n w).
Proof.
  intros HI. unfold deliver. destruct (subscriptions_live _); [|done].
  assert (Hq : InvCore (_queueRefresh w)).
  { eapply InvCore_same_core; [apply queueRefresh_static|apply queueRefresh_core|done]. }
  destruct n; try done.
  - by destruct HI.
  - eapply InvCore_removes; [apply removeDecoration_removes | done].
Qed.

Lemma frame_callback_InvCore w : InvCore w → InvCore (frame_callback w).
Proof.
  intros HI%refreshDecorations_InvCore. unfold frame_callback. by destruct HI.
Qed.

Lemma animation_frame_InvCore w : InvCore w → InvCore (animation_frame w).
Proof.
  intros HI. unfold animation_frame.
  set (w1 := {| this := this w; raf_queue := [] |}).
  assert (H1 : InvCore w1) by by destruct HI.
  clearbody w1. revert w1 H1.
  induction (raf_queue w) as [|h q IH]; intros w1 H1; simpl; [done|].
  apply IH. by apply frame_callback_InvCore.
Qed.

Lemma dispose_InvCore w : InvCore w → InvCore (dispose w).
Proof.
  apply InvCore_shrink; try done. simpl. apply map_empty_subseteq.
Qed.

Lemma step_InvCore a w : InvCore w → InvCore (step a w).
Proof.
  intros HI. destruct a; simpl.
  - by apply deliver_InvCore.
  - by destruct HI.
  - by destruct HI.
  - apply InvCore_alter_object; [|done]. by apply upd_marker_lifecycle.
  - by apply registerDecoration_InvCore.
  - by apply decoration_dispose_InvCore.
  - by apply marker_dispose_InvCore.
  - by apply animation_frame_InvCore.
  - by apply refreshDecorations_InvCore.
  - by apply dispose_InvCore.
Qed.

Lemma decoration_dispose_sched d w : sched_of (decoration_dispose d w) = sched_of w.
Proof.
  destruct (objects w !! d) as [dec|] eqn:Hd.
  2: { rewrite decoration_dispose_disposed; [done | congruence]. }
  destruct (isDisposed dec) eqn:Hn.
  { rewrite decoration_dispose_disposed; [done | congruence]. }
  destruct (decoration_dispose_live d dec w Hd Hn) as (w2 & Hr & _ & ->).
  destruct Hr as (_ & Hq & _). done.
Qed.

Lemma marker_dispose_sched d w : sched_of (marker_dispose d w) = sched_of w.
Proof.
  unfold marker_dispose. destruct (objects w !! d) as [dec|]; [|done].
  destruct (marker_isDisposed _); [done|].
  set (w1 := upd_objects _ w). change (sched_of w) with (sched_of w1).
  clearbody w1. revert w1.
  induction (marker_onDispose (marker dec)) as [|[d'] ls IH]; intros w1; simpl; [done|].
  by rewrite IH, decoration_dispose_sched.
Qed.

Lemma registerDecoration_sched_ok l o hook w :
  sched_ok w → sched_ok (registerDecoration l o hook w).
Proof. intros H. unfold registerDecoration. by apply deliver_sched_ok. Qed.

Lemma step_sched_ok a w : sched_ok w → sched_ok (step a w).
Proof.
  intros H. destruct a; simpl; try done.
  - by apply deliver_sched_ok.
  - by apply registerDecoration_sched_ok.
  - eapply sched_ok_ext; [apply decoration_dispose_sched | done].
  - eapply sched_ok_ext; [apply marker_dispose_sched | done].
  - by apply animation_frame_sched_ok.
  - by apply refreshDecorations_sched_ok.
Qed.

Lemma run_snoc tr a w : run (tr ++ [a]) w = step a (run tr w).
Proof. unfold run. by rewrite foldl_snoc. Qed.

Lemma run_InvCore tr w : InvCore w → InvCore (run tr w).
Proof.
  intros HI. induction tr as [|a tr IH] using rev_ind; [done|].
  rewrite run_snoc. by apply step_InvCore.
Qed.

Lemma run_sched_ok tr w : sched_ok w → sched_ok (run tr w).
Proof.
  intros HI. induction tr as [|a tr IH] using rev_ind; [done|].
  rewrite run_snoc. by apply step_sched_ok.
Qed.

Lemma reachable_InvCore tr b dm : InvCore (run tr (constructed b dm)).
Proof. apply run_InvCore, InvCore_constructed. Qed.

Lemma reachable_sched_ok tr b dm : sched_ok (run tr (constructed b dm)).
Proof. by apply run_sched_ok. Qed.

(** ** Coalesced refresh scheduling *)

Lemma pending_scheduled w : sched_ok w → pending w → scheduled w = 1.
Proof.
  unfold sched_ok, pending, scheduled. intros H [h Hh]. rewrite Hh in H.
  by rewrite H.
Qed.

Lemma scheduled_le_1 w : sched_ok w → scheduled w ≤ 1.
Proof.
  unfold sched_ok, scheduled. destruct (_animationFrame _); intros ->; simpl; lia.
Qed.

Lemma iter_queueRefresh_sched_ok N w :
  sched_ok w → sched_ok (Nat.iter N _queueRefresh w).
Proof. induction N; simpl; auto using queueRefresh_sched_ok. Qed.

Lemma iter_queueRefresh_pending N w :
  1 ≤ N → pending (Nat.iter N _queueRefresh w).
Proof.
  destruct N as [|N]; [lia|]. intros _. simpl. apply queueRefresh_makes_pending.
Qed.

Lemma idle_frame_idle w :
  sched_of w = (None, []) → passes (animation_frame w) = passes w.
Proof.
  unfold sched_of. intros [= Ha Hr]. unfold animation_frame. by rewrite Hr.
Qed.

(** C4.  In every reachable state at most one frame callback waits, and a
    refresh request made while one waits changes nothing.  However many
    requests (at least one) are made before the frame fires, exactly one
    callback is waiting afterwards, the frame runs the refresh body exactly
    once, and nothing is left for the frame after. *)
Theorem queueRefresh_coalesces tr b dm (N : nat) :
  1 ≤ N →
  let w := run tr (constructed b dm) in
  let w' := Nat.iter N _queueRefresh w in
  scheduled w ≤ 1 ∧
  (pending w → _queueRefresh w = w) ∧
  scheduled w' = 1 ∧
  _queueRefresh w' = w' ∧
  passes (animation_frame w') = S (passes w') ∧
  scheduled (animation_frame w') = 0 ∧
  passes (animation_frame (animation_frame w')) = S (passes w').
Proof.
  intros HN w w'.
  assert (Hok : sched_ok w) by apply reachable_sched_ok.
  assert (Hok' : sched_ok w') by by apply iter_queueRefresh_sched_ok.
  assert (Hp' : pending w') by by apply iter_queueRefresh_pending.
  destruct (animation_frame_pending w' Hok' Hp') as [Hpass Hq].
  split; [by apply scheduled_le_1|].
  split; [apply queueRefresh_pending|].
  split; [by apply pending_scheduled|].
  split; [by apply queueRefresh_pending|].
  split; [done|].
  split.
  - unfold scheduled. unfold sched_of in Hq. by injection Hq as _ ->.
  - by rewrite idle_frame_idle.
Qed.

Lemma queueRefresh_coalesces_witness :
  let w := run [RegisterDecoration 2 (Build_DecorationOptions None None None None) 1;
                AnimationFrame]
               (constructed (Build_BufferService 80 24 0 false)
                            (Build_RenderDimensions 9 17)) in
  let w' := Nat.iter 3 _queueRefresh w in
  scheduled w ≤ 1 ∧
  (pending w → _queueRefresh w = w) ∧
  scheduled w' = 1 ∧
  _queueRefresh w' = w' ∧
  passes (animation_frame w') = S (passes w') ∧
  scheduled (animation_frame w') = 0 ∧
  passes (animation_frame (animation_frame w')) = S (passes w').
Proof.
  apply (queueRefresh_coalesces
           [RegisterDecoration 2 (Build_DecorationOptions None None None None) 1;
            AnimationFrame]
           (Build_BufferService 80 24 0 false) (Build_RenderDimensions 9 17) 3).
  lia.
Defined.

(** C1, as the code has it.  The frame callback runs the refresh body first
    and clears the pending marker afterwards.  Whatever the render listeners
    request during the body, the frame executes the body exactly once, leaves
    no callback scheduled and no marker set, and the frame after it executes
    nothing: the requests made from inside the body are absorbed. *)
Theorem frame_callback_absorbs_requests tr b dm :
  let w := run tr (constructed b dm) in
  pending w →
  let w' := animation_frame w in
  passes w' = S (passes w) ∧
  scheduled w' = 0 ∧
  _animationFrame (this w') = None ∧
  passes (animation_frame w') = passes w'.
Proof.
  intros w Hp w'.
  destruct (animation_frame_pending w (reachable_sched_ok tr b dm) Hp) as [Hpass Hq].
  fold w' in Hpass, Hq.
  split; [done|]. pose proof Hq as Hq'. unfold sched_of in Hq.
  injection Hq as Ha Hr. unfold scheduled. rewrite Hr.
  repeat split; try done. by apply idle_frame_idle.
Qed.

Lemma frame_callback_absorbs_requests_witness :
  let w := run [RegisterDecoration 2 (Build_DecorationOptions None None None None) 4]
               (constructed (Build_BufferService 80 24 0 false)
                            (Build_RenderDimensions 9 17)) in
  pending w ∧
  reentrant_requests w = 4 ∧
  passes (animation_frame w) = S (passes w) ∧
  scheduled (animation_frame w) = 0 ∧
  _animationFrame (this (animation_frame w)) = None ∧
  passes (animation_frame (animation_frame w)) = passes (animation_frame w).
Proof.
  split; [by eexists|]. split; [reflexivity|].
  apply (frame_callback_absorbs_requests
           [RegisterDecoration 2 (Build_DecorationOptions None None None None) 4]
           (Build_BufferService 80 24 0 false) (Build_RenderDimensions 9 17)).
  by eexists.
Defined.

(** C1, as the claim has it, fails: a decoration whose render listener issues
    one refresh request during the refresh body.  A callback is pending; the
    frame runs the body, the request is made from inside it, and afterwards
    no callback is scheduled, so that the next frame does not run the body. *)
Lemma reentrant_request_dropped :
  let w := run [RegisterDecoration 2 (Build_DecorationOptions None None None None) 1]
               (constructed (Build_BufferService 80 24 0 false)
                            (Build_RenderDimensions 9 17)) in
  pending w ∧
  subscriptions_live (this w) = true ∧
  reentrant_requests w = 1 ∧
  scheduled (animation_frame w) = 0 ∧
  scheduled (animation_frame w) ≠ 1 ∧
  passes (animation_frame (animation_frame w)) = passes (animation_frame w).
Proof. vm_compute. repeat split; eauto; lia. Qed.

(** ** Element creation *)

Lemma fire_onRender_document d w : document (fire_onRender d w) = document w.
Proof. by destruct (fire_onRender_static d w) as (_ & _ & _ & _ & _ & -> & _). Qed.

Lemma restyle_size dec w el :
  style_width (restyle dec w el) = style_width el ∧
  style_height (restyle dec w el) = style_height el.
Proof. unfold restyle. by destruct (_ || _)%Z. Qed.

(** C2, as the code has it.  The width and height options are read with
    [||]: an absent option and an option equal to 0 both give one cell, any
    other value gives that many cells.  This is the size of the element
    [_createElement] returns, and of the element a refresh pass binds to a
    decoration that had none. *)
Theorem createElement_size d dec w :
  objects w !! d = Some dec →
  _decorationElements (this w) !! d = None →
  let cw := actualCellWidth (dimensions w) in
  let ch := actualCellHeight (dimensions w) in
  let width := match opt_width (options dec) with
               | Some n => if decide (n = 0%Z) then cw else (n * cw)%Z
               | None => cw
               end in
  let height := match opt_height (options dec) with
                | Some n => if decide (n = 0%Z) then ch else (n * ch)%Z
                | None => ch
                end in
  style_width (_createElement dec w) = Px width ∧
  style_height (_createElement dec w) = Px height ∧
  ∃ el, document (_renderDecoration d w) !! next_node w = Some el ∧
        _decorationElements (this (_renderDecoration d w)) !! d = Some (next_node w) ∧
        style_width el = Px width ∧ style_height el = Px height.
Proof.
  intros Ho Hm cw ch width height.
  assert (Hw : style_width (_createElement dec w) = Px width).
  { simpl. subst width cw. unfold or_default.
    destruct (opt_width (options dec)) as [n|]; [|by rewrite Z.mul_1_l].
    case_decide as Hn; [subst n; by rewrite Z.mul_1_l|].
    by apply Z.eqb_neq in Hn as ->. }
  assert (Hh : style_height (_createElement dec w) = Px height).
  { simpl. subst height ch. unfold or_default.
    destruct (opt_height (options dec)) as [n|]; [|by rewrite Z.mul_1_l].
    case_decide as Hn; [subst n; by rewrite Z.mul_1_l|].
    by apply Z.eqb_neq in Hn as ->. }
  split; [done|]. split; [done|].
  rewrite (renderDecoration_unbound d dec) by done.
  destruct (fire_onRender_static d
    {| this := set_container (_container (this w) ++ [next_node w])
                 (set_decorationElements
                    (<[d := next_node w]> (_decorationElements (this w)))
                    (this w));
       _bufferService := _bufferService w;
       dimensions := dimensions w; decorations := decorations w;
       objects := <[d := bind_object d (next_node w) dec]> (objects w);
       next_object := next_object w;
       document := <[next_node w := restyle dec w (_createElement dec w)]> (document w);
       next_node := S (next_node w);
       raf_queue := raf_queue w; raf_next := raf_next w;
       passes := passes w |}) as [_ (-> & _ & _ & _ & -> & _)].
  simpl. rewrite !lookup_insert_eq. eexists. split; [done|]. split; [done|].
  destruct (restyle_size dec w (_createElement dec w)) as [-> ->]. done.
Qed.

Lemma createElement_size_witness :
  let w := run [RegisterDecoration 2 (Build_DecorationOptions (Some 0%Z) (Some 3%Z) None None) 0]
               (constructed (Build_BufferService 80 24 0 false)
                            (Build_RenderDimensions 9 17)) in
  ∃ dec, objects w !! 0 = Some dec ∧
    style_width (_createElement dec w) = Px 9 ∧
    style_height (_createElement dec w) = Px 51 ∧
    ∃ el, document (_renderDecoration 0 w) !! next_node w = Some el ∧
          _decorationElements (this (_renderDecoration 0 w)) !! 0 = Some (next_node w) ∧
          style_width el = Px 9 ∧ style_height el = Px 51.
Proof.
  eexists. split; [reflexivity|].
  refine (createElement_size 0 _
            (run [RegisterDecoration 2
                    (Build_DecorationOptions (Some 0%Z) (Some 3%Z) None None) 0]
                 (constructed (Build_BufferService 80 24 0 false)
                              (Build_RenderDimensions 9 17))) _ _);
    reflexivity.
Defined.

(** C2, as the claim has it, fails: with [width: 0] and [height: 0] and cells
    of 9 by 17 pixels, the created element is 9 by 17 pixels, where
    [(options.width ?? 1) * 9] and [(options.height ?? 1) * 17] are 0. *)
Lemma createElement_zero_size_is_one_cell :
  let o := Build_DecorationOptions (Some 0%Z) (Some 0%Z) None None in
  let w := run [RegisterDecoration 2 o 0]
               (constructed (Build_BufferService 80 24 0 false)
                            (Build_RenderDimensions 9 17)) in
  ∃ dec, objects w !! 0 = Some dec ∧ options dec = o ∧
    style_width (_createElement dec w) = Px 9 ∧
    style_height (_createElement dec w) = Px 17 ∧
    style_width (_createElement dec w) ≠
      Px (nullish_default (opt_width o) 1 * actualCellWidth (dimensions w)) ∧
    style_height (_createElement dec w) ≠
      Px (nullish_default (opt_height o) 1 * actualCellHeight (dimensions w)) ∧
    (style_width <$> document (refreshDecorations w) !! 0) = Some (Px 9) ∧
    (style_height <$> document (refreshDecorations w) !! 0) = Some (Px 17).
Proof. eexists. split; [reflexivity|]. vm_compute. repeat split; congruence. Qed.

(** ** Column overflow *)

(** C3, the part the code keeps: an element created for a decoration whose
    [x] is not 0 and exceeds the column count is hidden by [_createElement]. *)
Lemma createElement_overflow_hidden dec w n :
  opt_x (options dec) = Some n → n ≠ 0%Z → (cols (_bufferService w) < n)%Z →
  hidden (_createElement dec w).
Proof.
  intros Hx Hn Hc. unfold hidden. simpl. rewrite Hx. simpl. unfold truthy.
  apply Z.eqb_neq in Hn as ->. apply Z.ltb_lt in Hc as ->. done.
Qed.

(** C3 at the failing input: [x = 5] in a buffer of 3 columns, the marker on
    line 0 of a 24-row viewport, the normal buffer active.  The element is
    created hidden, and the style refresh of the same pass shows it; it is
    still shown after a scroll-driven refresh. *)
Theorem overflow_element_shown_by_refresh :
  let o := Build_DecorationOptions None None (Some 5%Z) None in
  let w := run [RegisterDecoration 0 o 0]
               (constructed (Build_BufferService 3 24 0 false)
                            (Build_RenderDimensions 9 17)) in
  let w1 := run [AnimationFrame] w in
  let w2 := run [SetBuffer (Build_BufferService 3 24 (-1) false);
                 Notify onRenderedBufferChange; AnimationFrame] w1 in
  (∃ dec, objects w !! 0 = Some dec ∧ options dec = o ∧
          style_display (_createElement dec w) = DisplayNone) ∧
  _decorationElements (this w1) !! 0 = Some 0 ∧
  (style_display <$> document w1 !! 0) = Some DisplayBlock ∧
  (style_display <$> document w2 !! 0) = Some DisplayBlock.
Proof. split; [eexists; split; [reflexivity|]|]; vm_compute; done. Qed.

(** ** Removal *)

(** C8.  Removing a decoration that has no entry in the map changes nothing:
    not the map, not the children of the container, nor anything else. *)
Theorem removeDecoration_unbound_noop d w :
  _decorationElements (this w) !! d = None →
  _removeDecoration d w = w.
Proof.
  intros H. unfold _removeDecoration. rewrite H.
  destruct w as [[m af alt c att subs] bs dims ds os no doc nn rq rn ps].
  simpl in *. unfold upd_this, set_decorationElements. simpl.
  by rewrite delete_id.
Qed.

Lemma removeDecoration_unbound_noop_witness :
  let w := run [RegisterDecoration 2 (Build_DecorationOptions None None None None) 0;
                RegisterDecoration 5 (Build_DecorationOptions None None None None) 0;
                AnimationFrame; DisposeDecoration 1]
               (constructed (Build_BufferService 80 24 0 false)
                            (Build_RenderDimensions 9 17)) in
  _decorationElements (this w) !! 0 = Some 0 ∧
  _decorationElements (this w) !! 1 = None ∧
  _removeDecoration 1 w = w.
Proof.
  split; [reflexivity|]. split; [reflexivity|].
  apply removeDecoration_unbound_noop. reflexivity.
Defined.

(** ** The map after a refresh pass *)

Lemma fire_onRender_map d w :
  _decorationElements (this (fire_onRender d w)) = _decorationElements (this w).
Proof. by destruct (fire_onRender_static d w) as [_ (-> & _)]. Qed.

Lemma fire_onRender_next_node d w : next_node (fire_onRender d w) = next_node w.
Proof. by destruct (fire_onRender_static d w) as [_ (_ & _ & _ & _ & _ & ->)]. Qed.

Lemma fire_onRender_objects d w : objects (fire_onRender d w) = objects w.
Proof. by destruct (fire_onRender_static d w) as [_ (_ & _ & -> & _)]. Qed.

Lemma fire_onRender_container d w :
  _container (this (fire_onRender d w)) = _container (this w).
Proof. by destruct (fire_onRender_static d w) as [_ (_ & -> & _)]. Qed.

(** A decoration that has an element keeps it: nothing is created. *)
Lemma renderDecoration_reuses d e w :
  _decorationElements (this w) !! d = Some e →
  _decorationElements (this (_renderDecoration d w)) = _decorationElements (this w) ∧
  next_node (_renderDecoration d w) = next_node w ∧
  objects (_renderDecoration d w) = objects w ∧
  _container (this (_renderDecoration d w)) = _container (this w).
Proof.
  intros Hm. destruct (objects w !! d) as [dec|] eqn:Ho.
  - rewrite (renderDecoration_bound d e dec) by done.
    by rewrite fire_onRender_map, fire_onRender_next_node,
      fire_onRender_objects, fire_onRender_container.
  - unfold _renderDecoration. by rewrite Ho.
Qed.

Lemma renderDecoration_binds d dec w :
  objects w !! d = Some dec →
  is_Some (_decorationElements (this (_renderDecoration d w)) !! d).
Proof.
  intros Ho. destruct (_decorationElements (this w) !! d) as [e|] eqn:Hm.
  - destruct (renderDecoration_reuses d e w Hm) as [-> _]. eauto.
  - rewrite (renderDecoration_unbound d dec) by done.
    rewrite fire_onRender_map. simpl. rewrite lookup_insert_eq. eauto.
Qed.

Lemma renderDecoration_keeps_bound d x w :
  is_Some (_decorationElements (this w) !! x) →
  is_Some (_decorationElements (this (_renderDecoration d w)) !! x).
Proof.
  intros Hx. destruct (objects w !! d) as [dec|] eqn:Ho.
  2: { unfold _renderDecoration. by rewrite Ho. }
  destruct (_decorationElements (this w) !! d) as [e|] eqn:Hm.
  - by destruct (renderDecoration_reuses d e w Hm) as [-> _].
  - rewrite (renderDecoration_unbound d dec) by done.
    rewrite fire_onRender_map. simpl.
    rewrite lookup_insert. case_decide; eauto.
Qed.

Lemma render_all_binds ds w x :
  InvCore w → (∀ d, d ∈ ds → d ∈ decorations w) →
  x ∈ ds ∨ is_Some (_decorationElements (this w) !! x) →
  is_Some (_decorationElements
             (this (foldl (λ acc d, _renderDecoration d acc) w ds)) !! x).
Proof.
  revert w. induction ds as [|d ds IH]; intros w HI Hds Hx; simpl.
  - destruct Hx as [Hx|Hx]; [by apply elem_of_nil in Hx | done].
  - assert (Hd : d ∈ decorations w) by (apply Hds; by left).
    apply IH.
    + by apply renderDecoration_InvCore.
    + intros y Hy. destruct (renderDecoration_static d w) as (_&_&_&_&_&->).
      apply Hds. by right.
    + destruct Hx as [[->|Hx]%elem_of_cons | Hx]; [right|by left|right].
      * destruct (inv_live_object w HI d Hd) as (dec & Ho & _).
        by eapply renderDecoration_binds.
      * by apply renderDecoration_keeps_bound.
Qed.

Lemma refreshDecorations_decorations w :
  decorations (refreshDecorations w) = decorations w.
Proof.
  unfold refreshDecorations.
  by destruct (render_all_static (decorations w) (count_pass w)) as (_&_&_&_&_&->).
Qed.

Lemma refreshDecorations_bound_iff_live w d :
  InvCore w → bound (refreshDecorations w) d ↔ live (refreshDecorations w) d.
Proof.
  intros HI. unfold bound, live. split.
  - intros [e He]. eapply inv_bound_live; [|done].
    by apply refreshDecorations_InvCore.
  - rewrite refreshDecorations_decorations. intros Hd.
    unfold refreshDecorations. apply render_all_binds; [|done|by left].
    by apply count_pass_InvCore.
Qed.

Lemma decoration_dispose_unbinds d w :
  InvCore w → ¬ bound (decoration_dispose d w) d.
Proof.
  intros HI [e He]. unfold bound in *.
  assert (Hstay : decoration_dispose d w = w →
                  (∀ dec, objects w !! d = Some dec → isDisposed dec = true) → False).
  { intros Heq Hdis. rewrite Heq in He.
    apply (inv_bound_live w HI) in He.
    destruct (inv_live_object w HI d He) as (dec & Ho & Hn).
    rewrite (Hdis dec Ho) in Hn. done. }
  destruct (objects w !! d) as [dec|] eqn:Hd.
  2: { apply Hstay; [|intros ?; congruence].
       apply decoration_dispose_disposed. intros ?. rewrite Hd. congruence. }
  destruct (isDisposed dec) eqn:Hn.
  { apply Hstay; [|intros ?; congruence].
    apply decoration_dispose_disposed. intros ?. rewrite Hd. congruence. }
  destruct (decoration_dispose_live d dec w Hd Hn) as (w2 & Hr & Hu & Heq).
  rewrite Heq in He. simpl in He.
  destruct (_decorationElements (this w) !! d) as [e'|] eqn:Hb.
  - rewrite Hu in He; [done|]. left.
    destruct (inv_wired w HI d e' Hb) as (dec' & Hd' & Hl & _). congruence.
  - erewrite removes_unbound in He; done.
Qed.

Lemma registerDecoration_effect l o hook w :
  decorations (registerDecoration l o hook w) = decorations w ++ [next_object w] ∧
  _decorationElements (this (registerDecoration l o hook w)) =
    _decorationElements (this w).
Proof.
  unfold registerDecoration.
  match goal with
  | |- context [deliver ?n ?w0] =>
    destruct (deliver_refresh_static n w0) as [(_&_&_&_&_&->) (-> & _)]
  end; done.
Qed.

(** C5.  After a refresh pass, run directly or by the frame callback, a
    decoration has an entry in the map exactly when it is in the registry's
    set of live decorations.  Registration adds no entry: the new decoration
    is live and unmapped until the next refresh pass maps it.  Disposal of a
    decoration and the removal operation both leave the decoration without
    an entry as soon as they return. *)
Theorem map_matches_live_decorations tr b dm :
  let w := run tr (constructed b dm) in
  (∀ d, bound (refreshDecorations w) d ↔ live (refreshDecorations w) d) ∧
  (∀ d, bound (frame_callback w) d ↔ live (frame_callback w) d) ∧
  (∀ l o hook,
     let w1 := registerDecoration l o hook w in
     live w1 (next_object w) ∧ ¬ bound w1 (next_object w) ∧
     _decorationElements (this w1) = _decorationElements (this w) ∧
     bound (refreshDecorations w1) (next_object w)) ∧
  (∀ d, ¬ bound (decoration_dispose d w) d) ∧
  (∀ d, ¬ bound (_removeDecoration d w) d).
Proof.
  intros w. assert (HI : InvCore w) by apply reachable_InvCore.
  split; [intros d; by apply refreshDecorations_bound_iff_live|].
  split; [intros d; by apply (refreshDecorations_bound_iff_live w d)|].
  split; [|split].
  - intros l o hook w1.
    assert (HI1 : InvCore w1) by by apply registerDecoration_InvCore.
    destruct (registerDecoration_effect l o hook w) as [Hd Hmap].
    fold w1 in Hd, Hmap.
    assert (Hlive : live w1 (next_object w)).
    { unfold live. rewrite Hd.
      apply elem_of_app. right. by apply list_elem_of_singleton. }
    split; [done|]. split; [|split; [done|]].
    + unfold bound. rewrite Hmap. intros [e He].
      apply (inv_bound_live w HI) in He.
      destruct (inv_live_object w HI _ He) as (dec & Ho & _).
      assert (next_object w < next_object w)
        by (apply (inv_object_fresh w HI); eauto).
      lia.
    + apply refreshDecorations_bound_iff_live; [done|].
      unfold live. by rewrite refreshDecorations_decorations.
  - intros d. by apply decoration_dispose_unbinds.
  - intros d [e He]. by rewrite removeDecoration_unbinds in He.
Qed.

(** ** Position and visibility after a refresh pass *)

Lemma restyle_style_ok dec w el : style_ok w dec (restyle dec w el).
Proof.
  unfold style_ok, restyle, hidden.
  destruct (_ <? 0)%Z eqn:E1; simpl.
  { apply Z.ltb_lt in E1. split; [done | lia]. }
  destruct (_ <=? _)%Z eqn:E2; simpl.
  { apply Z.leb_le in E2. split; [done | lia]. }
  apply Z.ltb_ge in E1. apply Z.leb_gt in E2. split; [lia | done].
Qed.

Lemma style_ok_ext w w' dec dec' el :
  same_static w w' → line (marker dec') = line (marker dec) →
  style_ok w dec el → style_ok w' dec' el.
Proof.
  intros (Hb & Hd & Ha & _) Hl. unfold style_ok. by rewrite Hl, Hb, Hd, Ha.
Qed.

Lemma styled_ext w w' d :
  same_static w w' → same_core w w' → styled w d → styled w' d.
Proof.
  intros Hs (Hm & _ & Ho & _ & Hdoc & _) H e dec el.
  rewrite Hm, Ho, Hdoc. intros. eapply style_ok_ext; eauto.
Qed.

Lemma renderDecoration_styled d x w :
  InvCore w → d ∈ decorations w →
  x = d ∨ styled w x → styled (_renderDecoration d w) x.
Proof.
  intros HI Hlive Hx.
  destruct (inv_live_object w HI d Hlive) as (dec & Ho & _).
  destruct (_decorationElements (this w) !! d) as [e|] eqn:Hm.
  - rewrite (renderDecoration_bound d e dec) by done.
    eapply styled_ext; [apply fire_onRender_static..|].
    intros e' dec' el. simpl. intros Hm' Ho'.
    destruct (decide (e' = e)) as [->|Hne].
    + assert (x = d) as -> by by eapply (inv_inj w HI).
      rewrite lookup_alter_eq. destruct (document w !! e); [|done].
      intros [= <-]. assert (dec' = dec) as -> by congruence.
      eapply style_ok_ext; [| |apply restyle_style_ok]; [|done]. by repeat split.
    + rewrite lookup_alter_ne by done. intros Hel.
      destruct Hx as [->|Hx]; [congruence|].
      eapply style_ok_ext; [| |by eapply Hx]; [|done]. by repeat split.
  - rewrite (renderDecoration_unbound d dec) by done.
    eapply styled_ext; [apply fire_onRender_static..|].
    intros e' dec' el. simpl. rewrite !lookup_insert.
    destruct (decide (d = x)) as [->|Hne].
    + intros [= <-] [= <-]. rewrite decide_True by done. intros [= <-].
      eapply style_ok_ext; [| |apply restyle_style_ok]; [|done]. by repeat split.
    + intros Hm' Ho'. destruct (inv_node w HI x e' Hm') as [Hlt _].
      rewrite decide_False by lia. intros Hel.
      destruct Hx as [->|Hx]; [done|].
      eapply style_ok_ext; [| |by eapply Hx]; [|done]. by repeat split.
Qed.

Lemma render_all_styled ds w x :
  InvCore w → (∀ d, d ∈ ds → d ∈ decorations w) →
  x ∈ ds ∨ styled w x →
  styled (foldl (λ acc d, _renderDecoration d acc) w ds) x.
Proof.
  revert w. induction ds as [|d ds IH]; intros w HI Hds Hx; simpl.
  - destruct Hx as [Hx|Hx]; [by apply elem_of_nil in Hx | done].
  - assert (Hd : d ∈ decorations w) by (apply Hds; by left).
    apply IH.
    + by apply renderDecoration_InvCore.
    + intros y Hy. destruct (renderDecoration_static d w) as (_&_&_&_&_&->).
      apply Hds. by right.
    + destruct Hx as [[->|Hx]%elem_of_cons | Hx]; [right|by left|right].
      * apply renderDecoration_styled; auto.
      * apply renderDecoration_styled; auto.
Qed.

Lemma refreshDecorations_styled w d :
  InvCore w → styled (refreshDecorations w) d.
Proof.
  intros HI e dec el Hm.
  assert (Hlive : d ∈ decorations w).
  { rewrite <- refreshDecorations_decorations.
    eapply inv_bound_live; [by apply refreshDecorations_InvCore | done]. }
  revert e dec el Hm. change (styled (refreshDecorations w) d).
  unfold refreshDecorations. apply render_all_styled; [|done|by left].
  by apply count_pass_InvCore.
Qed.

(** C6.  After a refresh pass, take any decoration that has an element, and
    let [ln] be its marker's line minus the scroll offset of the active
    buffer.  If [ln] is negative or at least the number of visible rows, the
    element is hidden.  Otherwise its vertical offset is [ln] times the cell
    height in pixels, and it is hidden when the alt-buffer flag is set and
    displayed as a block when it is not. *)
Theorem refresh_positions_every_element tr b dm d e dec el :
  let w := refreshDecorations (run tr (constructed b dm)) in
  _decorationElements (this w) !! d = Some e →
  objects w !! d = Some dec →
  document w !! e = Some el →
  let ln := (line (marker dec) - ydisp (_bufferService w))%Z in
  ((ln < 0 ∨ rows (_bufferService w) ≤ ln)%Z →
   style_display el = DisplayNone) ∧
  ((0 ≤ ln < rows (_bufferService w))%Z →
   style_top el = Px (ln * actualCellHeight (dimensions w)) ∧
   style_display el =
     if _altBufferIsActive (this w) then DisplayNone else DisplayBlock).
Proof.
  intros w Hm Ho Hel.
  by apply (refreshDecorations_styled (run tr (constructed b dm)) d
              (reachable_InvCore tr b dm) e dec el).
Qed.

Lemma refresh_positions_every_element_witness :
  let w := refreshDecorations
             (run [RegisterDecoration 2 (Build_DecorationOptions None None None None) 0;
                   SetBuffer (Build_BufferService 80 24 1 false);
                   Notify onRenderedBufferChange]
                  (constructed (Build_BufferService 80 24 0 false)
                               (Build_RenderDimensions 9 17))) in
  let dec :=
    {| marker := {| line := 2; marker_isDisposed := false;
                    marker_onDispose := [CallDecorationDispose 0] |};
       options := Build_DecorationOptions None None None None;
       element := Some 0; isDisposed := false;
       onDispose := [CallRemoveDecoration 0];
       disposeFired := 0; onRender_requests := 0 |} in
  let el :=
    {| classList := ["xterm-decoration"%string];
       style_width := Px 9; style_height := Px 17; style_top := Px 17;
       style_lineHeight := Px 17; style_left := Unset; style_right := Unset;
       style_display := DisplayBlock |} in
  (_decorationElements (this w) !! 0 = Some 0 ∧
   objects w !! 0 = Some dec ∧
   document w !! 0 = Some el) ∧
  let ln := (line (marker dec) - ydisp (_bufferService w))%Z in
  ((ln < 0 ∨ rows (_bufferService w) ≤ ln)%Z →
   style_display el = DisplayNone) ∧
  ((0 ≤ ln < rows (_bufferService w))%Z →
   style_top el = Px (ln * actualCellHeight (dimensions w)) ∧
   style_display el =
     if _altBufferIsActive (this w) then DisplayNone else DisplayBlock).
Proof.
  intros w dec el. split; [repeat split; vm_compute; reflexivity|].
  apply (refresh_positions_every_element
           [RegisterDecoration 2 (Build_DecorationOptions None None None None) 0;
            SetBuffer (Build_BufferService 80 24 1 false);
            Notify onRenderedBufferChange]
           (Build_BufferService 80 24 0 false) (Build_RenderDimensions 9 17)
           0 0 dec el); vm_compute; reflexivity.
Defined.

(** ** Alt-buffer suppression *)

Lemma quiet_step a w :
  quiet a = true →
  _decorationElements (this (step a w)) = _decorationElements (this w) ∧
  decorations (step a w) = decorations w ∧
  next_node (step a w) = next_node w.
Proof.
  destruct a as [n| | | | | | | | |]; simpl; try done. intros Hq.
  destruct n; try done;
    try (match goal with
         | |- context [deliver ?n ?w0] =>
           by destruct (deliver_refresh_static n w0)
             as [(_&_&_&_&_&->) (-> & _ & _ & _ & _ & ->)]
         end).
  unfold deliver. by destruct (subscriptions_live _).
Qed.

Lemma quiet_run tr w :
  forallb quiet tr = true →
  _decorationElements (this (run tr w)) = _decorationElements (this w) ∧
  decorations (run tr w) = decorations w ∧
  next_node (run tr w) = next_node w.
Proof.
  induction tr as [|a tr IH] using rev_ind; [done|].
  rewrite forallb_app. simpl.
  intros [Htr [Ha _]%andb_prop]%andb_prop. rewrite run_snoc.
  destruct (quiet_step a (run tr w) Ha) as (-> & -> & ->). by apply IH.
Qed.

Lemma render_all_reuses ds w :
  (∀ d, d ∈ ds → is_Some (_decorationElements (this w) !! d)) →
  _decorationElements (this (foldl (λ acc d, _renderDecoration d acc) w ds)) =
    _decorationElements (this w) ∧
  next_node (foldl (λ acc d, _renderDecoration d acc) w ds) = next_node w.
Proof.
  revert w. induction ds as [|d ds IH]; intros w Hds; simpl; [done|].
  destruct (Hds d) as [e He]; [by left|].
  destruct (renderDecoration_reuses d e w He) as (Hm & Hn & _).
  destruct (IH (_renderDecoration d w)) as [-> ->]; [|done].
  intros x Hx. rewrite Hm. apply Hds. by right.
Qed.

Lemma refreshDecorations_reuses w :
  all_bound w →
  _decorationElements (this (refreshDecorations w)) = _decorationElements (this w) ∧
  next_node (refreshDecorations w) = next_node w.
Proof.
  intros H. unfold refreshDecorations.
  by apply (render_all_reuses (decorations w) (count_pass w)).
Qed.

Lemma refreshDecorations_all_bound w : InvCore w → all_bound (refreshDecorations w).
Proof. intros HI d Hd. by apply refreshDecorations_bound_iff_live. Qed.

Lemma refreshDecorations_alt w :
  _altBufferIsActive (this (refreshDecorations w)) = _altBufferIsActive (this w).
Proof.
  unfold refreshDecorations.
  by destruct (render_all_static (decorations w) (count_pass w)) as (_&_&->&_).
Qed.

Lemma animation_frame_alt w :
  _altBufferIsActive (this (animation_frame w)) = _altBufferIsActive (this w).
Proof.
  unfold animation_frame.
  match goal with |- context [foldl _ ?w0 _] =>
    change (_altBufferIsActive (this w)) with (_altBufferIsActive (this w0));
    generalize w0
  end.
  induction (raf_queue w) as [|h q IH]; intros w0; simpl; [done|].
  rewrite IH. unfold frame_callback. simpl. apply refreshDecorations_alt.
Qed.

Lemma decoration_dispose_alt d w :
  _altBufferIsActive (this (decoration_dispose d w)) = _altBufferIsActive (this w).
Proof.
  destruct (objects w !! d) as [dec|] eqn:Hd.
  2: { rewrite decoration_dispose_disposed; [done | congruence]. }
  destruct (isDisposed dec) eqn:Hn.
  { rewrite decoration_dispose_disposed; [done | congruence]. }
  destruct (decoration_dispose_live d dec w Hd Hn) as (w2 & Hr & _ & ->).
  destruct Hr as ((_&_&Ha&_) & _). simpl. done.
Qed.

Lemma marker_dispose_alt d w :
  _altBufferIsActive (this (marker_dispose d w)) = _altBufferIsActive (this w).
Proof.
  unfold marker_dispose. destruct (objects w !! d) as [dec|]; [|done].
  destruct (marker_isDisposed _); [done|].
  match goal with |- context [foldl _ ?w0 _] =>
    change (_altBufferIsActive (this w)) with (_altBufferIsActive (this w0));
    generalize w0
  end.
  induction (marker_onDispose (marker dec)) as [|[d'] ls IH]; intros w0; simpl; [done|].
  by rewrite IH, decoration_dispose_alt.
Qed.

Lemma step_alt a w :
  a ≠ Notify onBufferActivate →
  _altBufferIsActive (this (step a w)) = _altBufferIsActive (this w).
Proof.
  intros Ha. destruct a as [n| | | | | | | | |]; simpl; try done.
  - unfold deliver. destruct (subscriptions_live _); [|done].
    destruct n; try done; try by destruct (queueRefresh_static w) as (_&_&->&_).
    by destruct (removeDecoration_static d w) as (_&_&->&_).
  - unfold registerDecoration.
    match goal with
    | |- context [deliver ?n ?w0] =>
      by destruct (deliver_refresh_static n w0) as [(_&_&->&_) _]
    end.
  - apply decoration_dispose_alt.
  - apply marker_dispose_alt.
  - apply animation_frame_alt.
  - apply refreshDecorations_alt.
Qed.

(** C7.  A refresh pass run while the alt-buffer flag is set leaves every
    mapped element hidden, wherever its decoration is.  After any sequence of
    notifications, scrolls, resizes, buffer switches and marker moves (no
    registration, no removal), the next refresh pass creates no element and
    keeps the map as it was; if the flag is then clear, every decoration in
    the viewport is displayed.  The flag is written by the buffer-activation
    notification only, which copies whether the alternate buffer is the
    displayed one. *)
Theorem alt_buffer_suppression tr b dm tr2 :
  forallb quiet tr2 = true →
  let w := run tr (constructed b dm) in
  let w1 := refreshDecorations w in
  let w2 := run tr2 w1 in
  let w3 := refreshDecorations w2 in
  (_altBufferIsActive (this w) = true →
   ∀ d e el, _decorationElements (this w1) !! d = Some e →
             document w1 !! e = Some el → hidden el) ∧
  _decorationElements (this w3) = _decorationElements (this w1) ∧
  next_node w3 = next_node w1 ∧
  (_altBufferIsActive (this w2) = false →
   ∀ d e dec el,
     _decorationElements (this w3) !! d = Some e →
     objects w3 !! d = Some dec →
     document w3 !! e = Some el →
     (0 ≤ line (marker dec) - ydisp (_bufferService w3)
        < rows (_bufferService w3))%Z →
     style_display el = DisplayBlock) ∧
  (∀ a, a ≠ Notify onBufferActivate →
        _altBufferIsActive (this (step a w)) = _altBufferIsActive (this w)) ∧
  _altBufferIsActive (this (step (Notify onBufferActivate) w)) =
    (if subscriptions_live (this w) then buffer_is_alt (_bufferService w)
     else _altBufferIsActive (this w)).
Proof.
  intros Hq w w1 w2 w3.
  assert (HI : InvCore w) by apply reachable_InvCore.
  assert (HI1 : InvCore w1) by by apply refreshDecorations_InvCore.
  assert (HI2 : InvCore w2) by by apply run_InvCore.
  destruct (quiet_run tr2 w1 Hq) as (Hm2 & Hd2 & Hn2). fold w2 in Hm2, Hd2, Hn2.
  assert (Hb2 : all_bound w2).
  { intros d. rewrite Hm2, Hd2. by apply refreshDecorations_all_bound. }
  destruct (refreshDecorations_reuses w2 Hb2) as [Hm3 Hn3]. fold w3 in Hm3, Hn3.
  split; [|split; [congruence|split; [congruence|split; [|split]]]].
  - intros Halt d e el Hm Hel.
    destruct (inv_wired w1 HI1 d e Hm) as (dec & Ho & _).
    destruct (refreshDecorations_styled w d HI e dec el Hm Ho Hel) as [Hout Hin].
    rewrite refreshDecorations_alt, Halt in Hin. fold w1 in Hout, Hin.
    destruct (decide (line (marker dec) - ydisp (_bufferService w1) < 0
                      ∨ rows (_bufferService w1)
                          ≤ line (marker dec) - ydisp (_bufferService w1))%Z)
      as [Hc|Hc]; [by apply Hout|].
    apply Hin. lia.
  - intros Halt d e dec el Hm Ho Hel Hv.
    destruct (refreshDecorations_styled w2 d HI2 e dec el Hm Ho Hel) as [_ Hin].
    rewrite refreshDecorations_alt, Halt in Hin. fold w3 in Hin.
    by destruct (Hin Hv) as [_ Hdisp].
  - intros a Ha. by apply step_alt.
  - simpl. unfold deliver. by destruct (subscriptions_live _).
Qed.

Lemma alt_buffer_suppression_witness :
  let tr := [RegisterDecoration 2 (Build_DecorationOptions None None None None) 0;
             SetBuffer (Build_BufferService 80 24 0 true);
             Notify onBufferActivate] in
  let tr2 := [SetBuffer (Build_BufferService 80 24 0 false);
              Notify onBufferActivate] in
  let w := run tr (constructed (Build_BufferService 80 24 0 false)
                               (Build_RenderDimensions 9 17)) in
  let w1 := refreshDecorations w in
  let w2 := run tr2 w1 in
  let w3 := refreshDecorations w2 in
  (_altBufferIsActive (this w) = true ∧
   _altBufferIsActive (this w2) = false ∧
   (style_display <$> document w1 !! 0) = Some DisplayNone ∧
   (style_display <$> document w3 !! 0) = Some DisplayBlock) ∧
  (_altBufferIsActive (this w) = true →
   ∀ d e el, _decorationElements (this w1) !! d = Some e →
             document w1 !! e = Some el → hidden el) ∧
  _decorationElements (this w3) = _decorationElements (this w1) ∧
  next_node w3 = next_node w1 ∧
  (_altBufferIsActive (this w2) = false →
   ∀ d e dec el,
     _decorationElements (this w3) !! d = Some e →
     objects w3 !! d = Some dec →
     document w3 !! e = Some el →
     (0 ≤ line (marker dec) - ydisp (_bufferService w3)
        < rows (_bufferService w3))%Z →
     style_display el = DisplayBlock) ∧
  (∀ a, a ≠ Notify onBufferActivate →
        _altBufferIsActive (this (step a w)) = _altBufferIsActive (this w)) ∧
  _altBufferIsActive (this (step (Notify onBufferActivate) w)) =
    (if subscriptions_live (this w) then buffer_is_alt (_bufferService w)
     else _altBufferIsActive (this w)).
Proof.
  intros tr tr2 w w1 w2 w3.
  split; [repeat split; vm_compute; reflexivity|].
  apply (alt_buffer_suppression tr
           (Build_BufferService 80 24 0 false) (Build_RenderDimensions 9 17) tr2).
  reflexivity.
Defined.

(** ** The removal cascade *)

Lemma decoration_dispose_idem d w :
  decoration_dispose d (decoration_dispose d w) = decoration_dispose d w.
Proof.
  destruct (objects w !! d) as [dec|] eqn:Hd.
  2: { assert (E : decoration_dispose d w = w)
         by (apply decoration_dispose_disposed; intros ?; congruence).
       by rewrite !E. }
  destruct (isDisposed dec) eqn:Hn.
  { assert (E : decoration_dispose d w = w)
      by (apply decoration_dispose_disposed; intros ?; congruence).
    by rewrite !E. }
  destruct (decoration_dispose_live d dec w Hd Hn) as (w2 & Hr & _ & ->).
  apply decoration_dispose_disposed. simpl. intros dec'.
  rewrite lookup_alter_eq. destruct (objects w2 !! d); [|done].
  by intros [= <-].
Qed.

Lemma run_own_marker_listeners ls d w :
  (∀ l, l ∈ ls → l = CallDecorationDispose d) → ls ≠ [] →
  foldl (λ acc l, run_marker_listener l acc) w ls = decoration_dispose d w.
Proof.
  intros Hall Hne. destruct ls as [|l ls]; [done|]. clear Hne. simpl.
  rewrite (Hall l) by by left. simpl.
  assert (Hls : ∀ l', l' ∈ ls → l' = CallDecorationDispose d)
    by (intros; apply Hall; by right).
  clear Hall. revert w. induction ls as [|l' ls IH]; intros w; simpl; [done|].
  rewrite (Hls l') by by left. simpl. rewrite decoration_dispose_idem.
  apply IH. intros; apply Hls; by right.
Qed.

(** What disposing a bound, live decoration leaves behind. *)
Lemma decoration_dispose_bound d e dec w :
  InvCore w →
  _decorationElements (this w) !! d = Some e →
  objects w !! d = Some dec →
  let w' := decoration_dispose d w in
  isDisposed dec = false ∧ disposeFired dec = 0 ∧
  objects w' !! d = Some (set_disposed dec) ∧
  _decorationElements (this w') !! d = None ∧
  (e ∉ _container (this w')) ∧
  d ∉ decorations w'.
Proof.
  intros HI Hm Ho w'.
  destruct (inv_wired w HI d e Hm) as (dec0 & Ho0 & Hl & _).
  assert (dec0 = dec) as -> by congruence.
  pose proof (inv_bound_live w HI d e Hm) as Hlive.
  destruct (inv_live_object w HI d Hlive) as (dec0 & Ho1 & Hn).
  assert (dec0 = dec) as -> by congruence.
  pose proof (inv_fired w HI d dec Ho) as Hf. rewrite Hn in Hf.
  destruct (decoration_dispose_live d dec w Ho Hn) as (w2 & Hr & Hu & Heq).
  subst w'. rewrite Heq. simpl.
  destruct Hr as (_ & _ & Ho2 & _ & _ & _ & _ & _ & Hgone).
  split; [done|]. split; [done|]. split; [|split; [|split]].
  - by rewrite lookup_alter_eq, Ho2, Ho.
  - apply Hu. by left.
  - eapply Hgone; [done|]. apply Hu. by left.
  - intros [Hd _]%list_elem_of_filter. done.
Qed.

(** C9.  Take a decoration that a refresh pass has given an element, with its
    marker not yet disposed.  Both listeners of the creation branch are in
    place and the disposal signal has not fired.  Disposing the marker
    disposes the decoration: its disposal signal has then fired exactly once,
    the decoration has no entry in the map, its element is no longer a child
    of the container, and the decoration has left the registry. *)
Theorem marker_disposal_cascade tr b dm d e dec :
  let w := run tr (constructed b dm) in
  _decorationElements (this w) !! d = Some e →
  objects w !! d = Some dec →
  marker_isDisposed (marker dec) = false →
  let w' := marker_dispose d w in
  (CallRemoveDecoration d ∈ onDispose dec ∧
   CallDecorationDispose d ∈ marker_onDispose (marker dec) ∧
   isDisposed dec = false ∧ disposeFired dec = 0) ∧
  (∃ dec', objects w' !! d = Some dec' ∧
           marker_isDisposed (marker dec') = true ∧
           isDisposed dec' = true ∧ disposeFired dec' = 1) ∧
  _decorationElements (this w') !! d = None ∧
  (e ∉ _container (this w')) ∧
  ¬ live w' d.
Proof.
  intros w Hm Ho Hmk w'.
  assert (HI : InvCore w) by apply reachable_InvCore.
  destruct (inv_wired w HI d e Hm) as (dec0 & Ho0 & Hl1 & Hl2 & _).
  assert (dec0 = dec) as -> by congruence.
  destruct (inv_own_listeners w HI d dec Ho) as [_ Hown].
  set (w1 := upd_objects (alter (upd_marker set_marker_disposed) d) w).
  assert (Heq : w' = decoration_dispose d w1).
  { subst w'. unfold marker_dispose. rewrite Ho, Hmk. fold w1.
    apply run_own_marker_listeners; [done|].
    intros E. rewrite E in Hl2. by apply elem_of_nil in Hl2. }
  assert (HI1 : InvCore w1).
  { apply InvCore_alter_object; [|done]. by apply upd_marker_lifecycle. }
  assert (Ho1 : objects w1 !! d = Some (upd_marker set_marker_disposed dec)).
  { simpl. by rewrite lookup_alter_eq, Ho. }
  destruct (decoration_dispose_bound d e _ w1 HI1 Hm Ho1)
    as (Hn & Hf & Ho' & Hm' & Hc' & Hd').
  rewrite Heq. split; [done|]. split; [|done].
  eexists. split; [done|]. simpl in *. by rewrite Hf.
Qed.

Lemma marker_disposal_cascade_witness :
  let tr := [RegisterDecoration 2 (Build_DecorationOptions None None None None) 0;
             AnimationFrame; CallDispose; CallRefreshDecorations] in
  let w := run tr (constructed (Build_BufferService 80 24 0 false)
                               (Build_RenderDimensions 9 17)) in
  let dec :=
    {| marker := {| line := 2; marker_isDisposed := false;
                    marker_onDispose := [CallDecorationDispose 0;
                                         CallDecorationDispose 0] |};
       options := Build_DecorationOptions None None None None;
       element := Some 1; isDisposed := false;
       onDispose := [CallRemoveDecoration 0; CallRemoveDecoration 0];
       disposeFired := 0; onRender_requests := 0 |} in
  let w' := marker_dispose 0 w in
  (_decorationElements (this w) !! 0 = Some 1 ∧ objects w !! 0 = Some dec) ∧
  (CallRemoveDecoration 0 ∈ onDispose dec ∧
   CallDecorationDispose 0 ∈ marker_onDispose (marker dec) ∧
   isDisposed dec = false ∧ disposeFired dec = 0) ∧
  (∃ dec', objects w' !! 0 = Some dec' ∧
           marker_isDisposed (marker dec') = true ∧
           isDisposed dec' = true ∧ disposeFired dec' = 1) ∧
  _decorationElements (this w') !! 0 = None ∧
  (1 ∉ _container (this w')) ∧
  ¬ live w' 0.
Proof.
  intros tr w dec w'. split; [split; vm_compute; reflexivity|].
  apply (marker_disposal_cascade tr
           (Build_BufferService 80 24 0 false) (Build_RenderDimensions 9 17)
           0 1 dec); vm_compute; reflexivity.
Defined.

(** C10.  Removal does not touch the decoration objects.  For a decoration
    with an element, after [_removeDecoration] the map has no entry for it
    and the element is no longer a child of the container, yet the
    decoration's [element] slot still holds that element; the same is true
    when the removal is reached through the decoration's disposal. *)
Theorem removeDecoration_keeps_element_slot tr b dm d e :
  let w := run tr (constructed b dm) in
  _decorationElements (this w) !! d = Some e →
  let w' := _removeDecoration d w in
  objects w' = objects w ∧
  (element <$> objects w !! d) = Some (Some e) ∧
  (element <$> objects w' !! d) = Some (Some e) ∧
  _decorationElements (this w') !! d = None ∧
  (e ∉ _container (this w')) ∧
  (element <$> objects (decoration_dispose d w) !! d) = Some (Some e) ∧
  _decorationElements (this (decoration_dispose d w)) !! d = None.
Proof.
  intros w Hm w'.
  assert (HI : InvCore w) by apply reachable_InvCore.
  destruct (inv_wired w HI d e Hm) as (dec & Ho & _ & _ & Hel).
  destruct (removeDecoration_removes d w)
    as (_ & _ & Ho' & _ & _ & _ & _ & _ & Hgone).
  fold w' in Ho', Hgone.
  assert (Hu : _decorationElements (this w') !! d = None)
    by apply removeDecoration_unbinds.
  destruct (decoration_dispose_bound d e dec w HI Hm Ho)
    as (_ & _ & Hod & Hmd & _).
  rewrite Ho', Ho, Hod. simpl. rewrite Hel.
  repeat split; try done. by eapply Hgone.
Qed.

Lemma removeDecoration_keeps_element_slot_witness :
  let tr := [RegisterDecoration 2 (Build_DecorationOptions None None None None) 0;
             AnimationFrame] in
  let w := run tr (constructed (Build_BufferService 80 24 0 false)
                               (Build_RenderDimensions 9 17)) in
  let w' := _removeDecoration 0 w in
  _decorationElements (this w) !! 0 = Some 0 ∧
  objects w' = objects w ∧
  (element <$> objects w !! 0) = Some (Some 0) ∧
  (element <$> objects w' !! 0) = Some (Some 0) ∧
  _decorationElements (this w') !! 0 = None ∧
  (0 ∉ _container (this w')) ∧
  (element <$> objects (decoration_dispose 0 w) !! 0) = Some (Some 0) ∧
  _decorationElements (this (decoration_dispose 0 w)) !! 0 = None.
Proof.
  intros tr w w'. split; [vm_compute; reflexivity|].
  apply (removeDecoration_keeps_element_slot tr
           (Build_BufferService 80 24 0 false) (Build_RenderDimensions 9 17) 0 0).
  vm_compute; reflexivity.
Defined.

(** * Further properties of the renderer *)

(** ** Mapped elements are children of the container *)

Lemma InvChildren_ext w w' :
  _decorationElements (this w') = _decorationElements (this w) →
  _container (this w') = _container (this w) →
  InvChildren w → InvChildren w'.
Proof. unfold InvChildren. intros -> ->. done. Qed.

Lemma removeDecoration_children d w :
  InvCore w → InvChildren w → InvChildren (_removeDecoration d w).
Proof.
  intros HI HC d' e'. rewrite removeDecoration_map.
  destruct (decide (d' = d)) as [->|Hne]; [by rewrite lookup_delete_eq|].
  rewrite lookup_delete_ne by done. intros Hm'.
  unfold _removeDecoration.
  destruct (_decorationElements (this w) !! d) as [e|] eqn:Hm; simpl.
  - apply list_elem_of_filter. split; [|by eapply HC].
    intros ->. apply Hne. by eapply (inv_inj w HI).
  - by eapply HC.
Qed.

Lemma run_listeners_children ls w :
  InvCore w → InvChildren w →
  InvCore (foldl (λ acc l, run_decoration_listener l acc) w ls) ∧
  InvChildren (foldl (λ acc l, run_decoration_listener l acc) w ls).
Proof.
  revert w. induction ls as [|[d] ls IH]; intros w HI HC; simpl; [done|].
  apply IH.
  - eapply InvCore_removes; [apply removeDecoration_removes | done].
  - by apply removeDecoration_children.
Qed.

Lemma decoration_dispose_children d w :
  InvCore w → InvChildren w → InvChildren (decoration_dispose d w).
Proof.
  intros HI HC. unfold decoration_dispose.
  destruct (objects w !! d) as [dec|]; [|done].
  destruct (isDisposed dec); [done|].
  rewrite run_listeners_upd_objects, deliver_removed_upd.
  destruct (run_listeners_children (onDispose dec) w HI HC) as [HI1 HC1].
  eapply InvChildren_ext; [reflexivity..|].
  unfold deliver. destruct (subscriptions_live _); [|done].
  by apply removeDecoration_children.
Qed.

Lemma marker_dispose_children d w :
  InvCore w → InvChildren w → InvChildren (marker_dispose d w).
Proof.
  intros HI HC. unfold marker_dispose.
  destruct (objects w !! d) as [dec|]; [|done].
  destruct (marker_isDisposed _); [done|].
  assert (HI1 : InvCore (upd_objects (alter (upd_marker set_marker_disposed) d) w)).
  { apply InvCore_alter_object; [|done]. by apply upd_marker_lifecycle. }
  assert (HC1 : InvChildren (upd_objects (alter (upd_marker set_marker_disposed) d) w))
    by done.
  revert HI1 HC1. generalize (upd_objects (alter (upd_marker set_marker_disposed) d) w).
  induction (marker_onDispose (marker dec)) as [|[d'] ls IH]; intros w1 HI1 HC1;
    simpl; [done|].
  apply IH; [by apply decoration_dispose_InvCore | by apply decoration_dispose_children].
Qed.

Lemma renderDecoration_children d w :
  InvChildren w → InvChildren (_renderDecoration d w).
Proof.
  intros HC. destruct (objects w !! d) as [dec|] eqn:Ho.
  2: { unfold _renderDecoration. by rewrite Ho. }
  destruct (_decorationElements (this w) !! d) as [e|] eqn:Hm.
  - destruct (renderDecoration_reuses d e w Hm) as (Hm' & _ & _ & Hc').
    by eapply InvChildren_ext.
  - rewrite (renderDecoration_unbound d dec) by done.
    eapply InvChildren_ext;
      [apply fire_onRender_map | apply fire_onRender_container |].
    intros d' e'. simpl. rewrite lookup_insert. case_decide.
    + intros [= <-]. apply elem_of_app. right. by apply list_elem_of_singleton.
    + intros H'. apply elem_of_app. left. by eapply HC.
Qed.

Lemma refreshDecorations_children w :
  InvChildren w → InvChildren (refreshDecorations w).
Proof.
  intros HC. unfold refreshDecorations.
  assert (HC0 : InvChildren (count_pass w)) by done.
  revert HC0. generalize (count_pass w).
  induction (decorations w) as [|d ds IH]; intros w0 HC0; simpl; [done|].
  apply IH. by apply renderDecoration_children.
Qed.

Lemma animation_frame_children w :
  InvChildren w → InvChildren (animation_frame w).
Proof.
  intros HC. unfold animation_frame.
  match goal with |- InvChildren (foldl _ ?w0 _) =>
    assert (HC0 : InvChildren w0) by done; revert HC0; generalize w0
  end.
  induction (raf_queue w) as [|h q IH]; intros w0 HC0; simpl; [done|].
  apply IH. unfold frame_callback.
  eapply InvChildren_ext; [reflexivity..|]. by apply refreshDecorations_children.
Qed.

Lemma step_children a w :
  InvCore w → InvChildren w → InvChildren (step a w).
Proof.
  intros HI HC. destruct a as [n| | | | | | | | |]; simpl; try done.
  - unfold deliver. destruct (subscriptions_live _); [|done].
    destruct n; try done;
      try (destruct (queueRefresh_core w) as (Hm & Hc & _);
           by eapply InvChildren_ext).
    by apply removeDecoration_children.
  - unfold registerDecoration.
    match goal with
    | |- context [deliver ?n ?w0] =>
      destruct (deliver_refresh_static n w0) as [_ (Hm & Hc & _)]; [done..|]
    end.
    by eapply InvChildren_ext.
  - by apply decoration_dispose_children.
  - by apply marker_dispose_children.
  - by apply animation_frame_children.
  - by apply refreshDecorations_children.
Qed.

Lemma run_children tr w :
  InvCore w → InvChildren w → InvChildren (run tr w).
Proof.
  intros HI HC. induction tr as [|a tr IH] using rev_ind; [done|].
  rewrite run_snoc. apply step_children; [by apply run_InvCore | done].
Qed.

Lemma reachable_children tr b dm : InvChildren (run tr (constructed b dm)).
Proof.
  apply run_children; [apply InvCore_constructed|].
  intros d e. simpl. by rewrite lookup_empty.
Qed.

(** X1.  In every state the renderer can reach, a decoration with a map
    entry is live, its element is an allocated node and a child of the
    container, its [element] slot holds that very element, and no other
    decoration is mapped to it. *)
Theorem mapped_element_consistent tr b dm d e :
  let w := run tr (constructed b dm) in
  _decorationElements (this w) !! d = Some e →
  live w d ∧
  e ∈ _container (this w) ∧
  is_Some (document w !! e) ∧
  (element <$> objects w !! d) = Some (Some e) ∧
  (∀ d', _decorationElements (this w) !! d' = Some e → d' = d).
Proof.
  intros w Hm.
  assert (HI : InvCore w) by apply reachable_InvCore.
  assert (HC : InvChildren w) by apply reachable_children.
  destruct (inv_wired w HI d e Hm) as (dec & Ho & _ & _ & Hel).
  split; [by eapply inv_bound_live|]. split; [by eapply HC|].
  split; [by eapply inv_node|]. split; [by rewrite Ho; simpl; rewrite Hel|].
  intros d' Hm'. by eapply (inv_inj w HI).
Qed.

Lemma mapped_element_consistent_witness :
  let tr := [RegisterDecoration 2 (Build_DecorationOptions None None None None) 0;
             RegisterDecoration 7 (Build_DecorationOptions None None None None) 0;
             AnimationFrame; DisposeDecoration 0;
             RegisterDecoration 9 (Build_DecorationOptions None None None None) 0;
             AnimationFrame] in
  let w := run tr (constructed (Build_BufferService 80 24 0 false)
                               (Build_RenderDimensions 9 17)) in
  _decorationElements (this w) !! 2 = Some 2 ∧
  live w 2 ∧
  2 ∈ _container (this w) ∧
  is_Some (document w !! 2) ∧
  (element <$> objects w !! 2) = Some (Some 2) ∧
  (∀ d', _decorationElements (this w) !! d' = Some 2 → d' = 2).
Proof.
  intros tr w. split; [vm_compute; reflexivity|].
  apply (mapped_element_consistent tr
           (Build_BufferService 80 24 0 false) (Build_RenderDimensions 9 17) 2 2).
  vm_compute; reflexivity.
Defined.

(** X2.  Removing one decoration never disturbs another: the other
    decoration keeps its map entry, its element stays a child of the
    container, and neither the elements' styles nor the decoration objects
    nor the registry change. *)
Theorem removeDecoration_spares_others tr b dm d d' e' :
  let w := run tr (constructed b dm) in
  d' ≠ d →
  _decorationElements (this w) !! d' = Some e' →
  let w' := _removeDecoration d w in
  _decorationElements (this w') !! d' = Some e' ∧
  e' ∈ _container (this w') ∧
  document w' = document w ∧
  objects w' = objects w ∧
  decorations w' = decorations w.
Proof.
  intros w Hne Hm w'.
  assert (HI : InvCore w) by apply reachable_InvCore.
  assert (HC : InvChildren w) by apply reachable_children.
  assert (Hm' : _decorationElements (this w') !! d' = Some e').
  { subst w'. rewrite removeDecoration_map. by rewrite lookup_delete_ne. }
  split; [done|].
  split; [by eapply (removeDecoration_children d w HI HC)|].
  destruct (removeDecoration_removes d w)
    as ((_&_&_&_&_&Hd) & _ & Ho & _ & Hdoc & _).
  done.
Qed.

Lemma removeDecoration_spares_others_witness :
  let tr := [RegisterDecoration 2 (Build_DecorationOptions None None None None) 0;
             RegisterDecoration 7 (Build_DecorationOptions None None None None) 0;
             AnimationFrame] in
  let w := run tr (constructed (Build_BufferService 80 24 0 false)
                               (Build_RenderDimensions 9 17)) in
  let w' := _removeDecoration 0 w in
  (_decorationElements (this w) !! 0 = Some 0 ∧
   _decorationElements (this w) !! 1 = Some 1 ∧
   _container (this w') = [1]) ∧
  _decorationElements (this w') !! 1 = Some 1 ∧
  1 ∈ _container (this w') ∧
  document w' = document w ∧
  objects w' = objects w ∧
  decorations w' = decorations w.
Proof.
  intros tr w w'. split; [repeat split; vm_compute; reflexivity|].
  apply (removeDecoration_spares_others tr
           (Build_BufferService 80 24 0 false) (Build_RenderDimensions 9 17) 0 1 1).
  - lia.
  - vm_compute; reflexivity.
Defined.

(** ** How removals compose *)

Lemma Renderer_eq (r r' : Renderer) :
  _decorationElements r = _decorationElements r' →
  _animationFrame r = _animationFrame r' →
  _altBufferIsActive r = _altBufferIsActive r' →
  _container r = _container r' →
  container_attached r = container_attached r' →
  subscriptions_live r = subscriptions_live r' →
  r = r'.
Proof. destruct r, r'. simpl. by intros -> -> -> -> -> ->. Qed.

Lemma removeDecoration_eq d w :
  _removeDecoration d w =
  upd_this (λ r,
    set_decorationElements (delete d (_decorationElements r))
      (set_container
         (match _decorationElements r !! d with
          | Some e => filter (λ c, c ≠ e) (_container r)
          | None => _container r
          end) r)) w.
Proof.
  unfold _removeDecoration. destruct (_decorationElements (this w) !! d) eqn:E.
  - unfold element_remove, upd_this. simpl. by rewrite E.
  - apply World_eq; try done. apply Renderer_eq; try done. simpl. by rewrite E.
Qed.

Lemma filter_ne_comm (e1 e2 : nat) (l : list nat) :
  filter (λ c, c ≠ e1) (filter (λ c, c ≠ e2) l) =
  filter (λ c, c ≠ e2) (filter (λ c, c ≠ e1) l).
Proof.
  induction l as [|c l IH]; [done|].
  rewrite !filter_cons.
  destruct (decide (c ≠ e2)), (decide (c ≠ e1));
    rewrite ?filter_cons; repeat case_decide; try done; by rewrite IH.
Qed.

(** X3.  Removals may come in any order and any number of times: removing
    the same decoration twice is the same as removing it once, and two
    removals commute.  This holds of every state, reachable or not. *)
Theorem removeDecoration_compose d1 d2 w :
  _removeDecoration d1 (_removeDecoration d1 w) = _removeDecoration d1 w ∧
  _removeDecoration d1 (_removeDecoration d2 w) =
    _removeDecoration d2 (_removeDecoration d1 w).
Proof.
  rewrite !removeDecoration_eq. unfold upd_this. simpl. split.
  - f_equal. apply Renderer_eq; simpl; try done.
    + apply delete_delete_eq.
    + by rewrite lookup_delete_eq.
  - f_equal. apply Renderer_eq; simpl; try done.
    + apply delete_delete.
    + destruct (decide (d1 = d2)) as [->|Hne]; [done|].
      rewrite !lookup_delete_ne by done.
      destruct (_decorationElements (this w) !! d1),
               (_decorationElements (this w) !! d2); try done.
      apply filter_ne_comm.
Qed.

(** ** A second pass changes nothing *)

Lemma restyle_fix dec w el : style_ok w dec el → restyle dec w el = el.
Proof.
  unfold style_ok, restyle, hidden. intros [Hout Hin].
  destruct el as [cl sw sh st sl sle sr sd]. simpl in *.
  destruct (_ <? 0)%Z eqn:E1; simpl.
  { apply Z.ltb_lt in E1. unfold set_display. simpl. by rewrite Hout by lia. }
  destruct (_ <=? _)%Z eqn:E2; simpl.
  { apply Z.leb_le in E2. unfold set_display. simpl. by rewrite Hout by lia. }
  apply Z.ltb_ge in E1. apply Z.leb_gt in E2.
  destruct Hin as [-> ->]; [lia|]. done.
Qed.

Lemma renderDecoration_fix d w :
  is_Some (_decorationElements (this w) !! d) → styled w d →
  same_core w (_renderDecoration d w).
Proof.
  intros [e Hm] Hst. destruct (objects w !! d) as [dec|] eqn:Ho.
  2: { unfold _renderDecoration. rewrite Ho. apply same_core_refl. }
  rewrite (renderDecoration_bound d e dec) by done.
  eapply same_core_trans; [|apply fire_onRender_static].
  repeat split; try done. simpl. apply alter_id.
  intros el Hel. apply restyle_fix. by eapply Hst.
Qed.

Lemma render_all_fix ds w :
  (∀ d, d ∈ ds → is_Some (_decorationElements (this w) !! d) ∧ styled w d) →
  same_core w (foldl (λ acc d, _renderDecoration d acc) w ds).
Proof.
  revert w. induction ds as [|d ds IH]; intros w Hds; simpl.
  - apply same_core_refl.
  - destruct (Hds d) as [Hb Hst]; [by left|].
    pose proof (renderDecoration_fix d w Hb Hst) as Hc.
    eapply same_core_trans; [done|]. apply IH. intros x Hx.
    destruct (Hds x) as [Hbx Hstx]; [by right|]. split.
    + destruct Hc as (-> & _). done.
    + eapply styled_ext; [apply renderDecoration_static | done | done].
Qed.

(** X4.  Two refresh passes in a row: the second one creates no element and
    changes nothing in the map, the container, the decoration objects or the
    elements' styles.  It counts as one more execution (and its render
    listeners may request a frame, as in any pass). *)
Theorem refreshDecorations_twice tr b dm :
  let w1 := refreshDecorations (run tr (constructed b dm)) in
  let w2 := refreshDecorations w1 in
  _decorationElements (this w2) = _decorationElements (this w1) ∧
  _container (this w2) = _container (this w1) ∧
  objects w2 = objects w1 ∧
  document w2 = document w1 ∧
  next_node w2 = next_node w1 ∧
  passes w2 = S (passes w1).
Proof.
  intros w1 w2.
  assert (HI : InvCore (run tr (constructed b dm))) by apply reachable_InvCore.
  assert (Hb : all_bound w1) by by apply refreshDecorations_all_bound.
  assert (Hst : ∀ d, styled w1 d) by (intros d; by apply refreshDecorations_styled).
  assert (Hc : same_core w1 w2).
  { unfold w2, refreshDecorations.
    apply (render_all_fix (decorations w1) (count_pass w1)).
    intros d Hd. split; [by apply Hb | apply Hst]. }
  destruct Hc as (Hm & Hcn & Ho & _ & Hdoc & Hnn).
  repeat split; try done. apply refreshDecorations_passes.
Qed.

(** ** What a refresh pass never rewrites *)

Lemma same_geometry_refl el : same_geometry el el.
Proof. by repeat split. Qed.

Lemma same_geometry_trans el1 el2 el3 :
  same_geometry el1 el2 → same_geometry el2 el3 → same_geometry el1 el3.
Proof.
  unfold same_geometry. intros (?&?&?&?&?&?) (?&?&?&?&?&?).
  repeat split; congruence.
Qed.

Lemma restyle_geometry dec w el : same_geometry el (restyle dec w el).
Proof. unfold restyle. destruct (_ || _)%Z; by repeat split. Qed.

Lemma renderDecoration_geometry x w d e el el' :
  InvCore w → x ∈ decorations w →
  _decorationElements (this w) !! d = Some e →
  document w !! e = Some el' → same_geometry el el' →
  _decorationElements (this (_renderDecoration x w)) !! d = Some e ∧
  ∃ el'', document (_renderDecoration x w) !! e = Some el'' ∧
          same_geometry el el''.
Proof.
  intros HI Hx Hm Hel Hg.
  destruct (inv_live_object w HI x Hx) as (dec & Ho & _).
  destruct (_decorationElements (this w) !! x) as [ex|] eqn:Hmx.
  - rewrite (renderDecoration_bound x ex dec) by done.
    rewrite fire_onRender_map, fire_onRender_document. simpl.
    split; [done|]. rewrite lookup_alter. case_decide as Hex.
    + subst ex. rewrite Hel. simpl. eexists. split; [done|].
      eapply same_geometry_trans; [done | apply restyle_geometry].
    + eauto.
  - rewrite (renderDecoration_unbound x dec) by done.
    rewrite fire_onRender_map, fire_onRender_document. simpl.
    assert (x ≠ d) by congruence.
    destruct (inv_node w HI d e Hm) as [Hlt _].
    rewrite !lookup_insert_ne by lia. eauto.
Qed.

Lemma render_all_geometry ds w d e el el' :
  InvCore w → (∀ x, x ∈ ds → x ∈ decorations w) →
  _decorationElements (this w) !! d = Some e →
  document w !! e = Some el' → same_geometry el el' →
  _decorationElements
    (this (foldl (λ acc x, _renderDecoration x acc) w ds)) !! d = Some e ∧
  ∃ el'', document (foldl (λ acc x, _renderDecoration x acc) w ds) !! e = Some el'' ∧
          same_geometry el el''.
Proof.
  revert w el'. induction ds as [|x ds IH]; intros w el' HI Hds Hm Hel Hg; simpl.
  - eauto.
  - assert (Hx : x ∈ decorations w) by (apply Hds; by left).
    destruct (renderDecoration_geometry x w d e el el' HI Hx Hm Hel Hg)
      as (Hm' & el'' & Hel'' & Hg'').
    eapply IH; eauto.
    + by apply renderDecoration_InvCore.
    + intros y Hy. destruct (renderDecoration_static x w) as (_&_&_&_&_&->).
      apply Hds. by right.
Qed.

Lemma quiet_step_document a w :
  quiet a = true → document (step a w) = document w.
Proof.
  destruct a as [n| | | | | | | | |]; simpl; try done. intros Hq.
  unfold deliver. destruct (subscriptions_live _); [|done].
  destruct n; try done; by destruct (queueRefresh_core w) as (_&_&_&_&->&_).
Qed.

Lemma quiet_run_document tr w :
  forallb quiet tr = true → document (run tr w) = document w.
Proof.
  induction tr as [|a tr IH] using rev_ind; [done|].
  rewrite forallb_app. simpl.
  intros [Htr [Ha _]%andb_prop]%andb_prop. rewrite run_snoc.
  rewrite quiet_step_document by done. by apply IH.
Qed.

(** X5.  An element's width, height, line height, horizontal offsets and
    class list are written once, when it is created.  After any sequence of
    scrolls, resizes (of the grid or of the cell), buffer switches, marker
    moves and notifications, a refresh pass leaves the decoration mapped to
    the same element with these six properties as they were. *)
Theorem refresh_keeps_geometry tr b dm tr2 d e el :
  let w := run tr (constructed b dm) in
  _decorationElements (this w) !! d = Some e →
  document w !! e = Some el →
  forallb quiet tr2 = true →
  let w2 := refreshDecorations (run tr2 w) in
  _decorationElements (this w2) !! d = Some e ∧
  ∃ el', document w2 !! e = Some el' ∧
         classList el' = classList el ∧
         style_width el' = style_width el ∧
         style_height el' = style_height el ∧
         style_lineHeight el' = style_lineHeight el ∧
         style_left el' = style_left el ∧
         style_right el' = style_right el.
Proof.
  intros w Hm Hel Hq w2.
  assert (HI : InvCore (run tr2 w)) by apply run_InvCore, reachable_InvCore.
  destruct (quiet_run tr2 w Hq) as (Hm2 & _ & _).
  pose proof (quiet_run_document tr2 w Hq) as Hd2.
  unfold w2, refreshDecorations.
  apply (render_all_geometry (decorations (run tr2 w)) (count_pass (run tr2 w))
           d e el el).
  - by apply count_pass_InvCore.
  - done.
  - simpl. by rewrite Hm2.
  - simpl. by rewrite Hd2.
  - apply same_geometry_refl.
Qed.

Lemma refresh_keeps_geometry_witness :
  let tr := [RegisterDecoration 2 (Build_DecorationOptions (Some 3%Z) None (Some 4%Z) None) 0;
             AnimationFrame] in
  let tr2 := [SetDimensions (Build_RenderDimensions 10 20);
              Notify onDimensionsChange] in
  let w := run tr (constructed (Build_BufferService 80 24 0 false)
                               (Build_RenderDimensions 9 17)) in
  let el :=
    {| classList := ["xterm-decoration"%string];
       style_width := Px 27; style_height := Px 17; style_top := Px 34;
       style_lineHeight := Px 17; style_left := Px 36; style_right := Unset;
       style_display := DisplayBlock |} in
  let w2 := refreshDecorations (run tr2 w) in
  (document w !! 0 = Some el ∧
   (style_top <$> document w2 !! 0) = Some (Px 40)) ∧
  _decorationElements (this w2) !! 0 = Some 0 ∧
  ∃ el', document w2 !! 0 = Some el' ∧
         classList el' = classList el ∧
         style_width el' = style_width el ∧
         style_height el' = style_height el ∧
         style_lineHeight el' = style_lineHeight el ∧
         style_left el' = style_left el ∧
         style_right el' = style_right el.
Proof.
  intros tr tr2 w el w2. split; [split; vm_compute; reflexivity|].
  apply (refresh_keeps_geometry tr
           (Build_BufferService 80 24 0 false) (Build_RenderDimensions 9 17)
           tr2 0 0 el); vm_compute; reflexivity.
Defined.

(** ** Teardown with a callback still waiting *)

Lemma renderDecoration_map_fresh d w x e :
  _decorationElements (this (_renderDecoration d w)) !! x = Some e →
  _decorationElements (this w) !! x = Some e ∨ next_node w ≤ e.
Proof.
  destruct (objects w !! d) as [dec|] eqn:Ho.
  2: { unfold _renderDecoration. rewrite Ho. by left. }
  destruct (_decorationElements (this w) !! d) as [e'|] eqn:Hm.
  - destruct (renderDecoration_reuses d e' w Hm) as (-> & _). by left.
  - rewrite (renderDecoration_unbound d dec) by done.
    rewrite fire_onRender_map. simpl. rewrite lookup_insert.
    case_decide; [intros [= <-]; by right | by left].
Qed.

Lemma renderDecoration_next_node d w :
  next_node w ≤ next_node (_renderDecoration d w).
Proof.
  destruct (objects w !! d) as [dec|] eqn:Ho.
  2: { unfold _renderDecoration. by rewrite Ho. }
  destruct (_decorationElements (this w) !! d) as [e'|] eqn:Hm.
  - destruct (renderDecoration_reuses d e' w Hm) as (_ & -> & _). done.
  - rewrite (renderDecoration_unbound d dec) by done.
    rewrite fire_onRender_next_node. simpl. lia.
Qed.

Lemma render_all_map_fresh ds w x e :
  _decorationElements
    (this (foldl (λ acc d, _renderDecoration d acc) w ds)) !! x = Some e →
  _decorationElements (this w) !! x = Some e ∨ next_node w ≤ e.
Proof.
  revert w. induction ds as [|d ds IH]; intros w; simpl; [by left|].
  intros [H|H]%IH.
  - by apply renderDecoration_map_fresh in H.
  - right. pose proof (renderDecoration_next_node d w). lia.
Qed.

Lemma animation_frame_one w h :
  raf_queue w = [h] →
  animation_frame w =
  frame_callback
    {| this := this w; _bufferService := _bufferService w;
       dimensions := dimensions w; decorations := decorations w;
       objects := objects w; next_object := next_object w;
       document := document w; next_node := next_node w;
       raf_queue := []; raf_next := raf_next w; passes := passes w |}.
Proof. unfold animation_frame. by intros ->. Qed.

(** X6.  [dispose] does not cancel a frame callback that is waiting.  When
    the frame fires after teardown, the refresh body runs once more and gives
    every live decoration an element again: a newly created one, appended to
    the detached container.  The subscriptions stay released. *)
Theorem late_frame_after_dispose tr b dm :
  let w := run tr (constructed b dm) in
  pending w →
  let w' := animation_frame (dispose w) in
  _decorationElements (this (dispose w)) = ∅ ∧
  scheduled (dispose w) = 1 ∧
  passes w' = S (passes w) ∧
  subscriptions_live (this w') = false ∧
  container_attached (this (dispose w)) = false ∧
  ∀ d, live w d →
       ∃ e, _decorationElements (this w') !! d = Some e ∧
            next_node w ≤ e ∧
            e ∈ _container (this w').
Proof.
  intros w Hp w'.
  assert (Hok : sched_ok w) by apply reachable_sched_ok.
  assert (HI : InvCore w) by apply reachable_InvCore.
  assert (Hokd : sched_ok (dispose w)) by done.
  assert (Hpd : pending (dispose w)) by done.
  destruct (animation_frame_pending (dispose w) Hokd Hpd) as [Hpass _].
  split; [done|]. split; [by apply pending_scheduled|]. split; [done|].
  destruct Hp as [h Hh]. unfold sched_ok in Hok. rewrite Hh in Hok.
  unfold w'. rewrite (animation_frame_one (dispose w) h) by done.
  set (w0 := {| this := this (dispose w); raf_queue := [] |}).
  assert (HI0 : InvCore w0) by (eapply InvCore_shrink; [..|exact (dispose_InvCore w HI)]; done).
  split; [|split; [done|]].
  - unfold frame_callback. simpl.
    unfold refreshDecorations.
    by destruct (render_all_static (decorations w0) (count_pass w0))
      as (_&_&_&->&_).
  - intros d Hd.
    assert (Hb : bound (refreshDecorations w0) d).
    { apply refreshDecorations_bound_iff_live; [done|].
      unfold live. by rewrite refreshDecorations_decorations. }
    destruct Hb as [e He]. exists e. unfold frame_callback. simpl.
    split; [done|]. split.
    + unfold refreshDecorations in He.
      apply render_all_map_fresh in He. simpl in He.
      destruct He as [He|He]; [by rewrite lookup_empty in He | done].
    + eapply (refreshDecorations_children w0); [|done].
      intros d' e'. simpl. by rewrite lookup_empty.
Qed.

Lemma late_frame_after_dispose_witness :
  let tr := [RegisterDecoration 2 (Build_DecorationOptions None None None None) 0;
             AnimationFrame; Notify windowResize] in
  let w := run tr (constructed (Build_BufferService 80 24 0 false)
                               (Build_RenderDimensions 9 17)) in
  let w' := animation_frame (dispose w) in
  (pending w ∧ _decorationElements (this w) !! 0 = Some 0 ∧
   _decorationElements (this w') !! 0 = Some 1 ∧
   _container (this w') = [0; 1]) ∧
  _decorationElements (this (dispose w)) = ∅ ∧
  scheduled (dispose w) = 1 ∧
  passes w' = S (passes w) ∧
  subscriptions_live (this w') = false ∧
  container_attached (this (dispose w)) = false ∧
  ∀ d, live w d →
       ∃ e, _decorationElements (this w') !! d = Some e ∧
            next_node w ≤ e ∧
            e ∈ _container (this w').
Proof.
  intros tr w w'.
  split; [split; [vm_compute; by eexists | repeat split; vm_compute; reflexivity]|].
  apply (late_frame_after_dispose tr
           (Build_BufferService 80 24 0 false) (Build_RenderDimensions 9 17)).
  vm_compute. by eexists.
Defined.

(** ** The manual entry point and the scheduler *)

(** X7.  Whatever the state, a frame leaves the renderer idle: no marker,
    nothing queued.  The next refresh request is therefore never ignored: it
    queues one callback, and the frame after runs the body once. *)
Theorem frame_leaves_scheduler_idle tr b dm :
  let w := run tr (constructed b dm) in
  let w1 := animation_frame w in
  let w2 := _queueRefresh w1 in
  _animationFrame (this w1) = None ∧
  scheduled w1 = 0 ∧
  scheduled w2 = 1 ∧
  _animationFrame (this w2) = Some (raf_next w1) ∧
  passes (animation_frame w2) = S (passes w1).
Proof.
  intros w w1 w2.
  assert (Hok : sched_ok w) by apply reachable_sched_ok.
  assert (Hok1 : sched_ok w1) by by apply animation_frame_sched_ok.
  assert (Hq1 : sched_of w1 = (None, [])).
  { destruct (_animationFrame (this w)) as [h|] eqn:E.
    - apply animation_frame_pending; [done|]. unfold pending. rewrite E. eauto.
    - by apply animation_frame_idle. }
  pose proof Hq1 as Hq1'. unfold sched_of in Hq1'. injection Hq1' as Ha Hr.
  pose proof (queueRefresh_idle w1 Ha) as Hq2. fold w2 in Hq2.
  unfold sched_of in Hq2. injection Hq2 as Ha2 Hr2.
  assert (Hok2 : sched_ok w2) by by apply queueRefresh_sched_ok.
  assert (Hp2 : pending w2) by apply queueRefresh_makes_pending.
  destruct (animation_frame_pending w2 Hok2 Hp2) as [Hpass _].
  split; [done|]. split; [unfold scheduled; by rewrite Hr|].
  split; [by apply pending_scheduled|]. split; [done|].
  rewrite Hpass. unfold w2.
  by destruct (queueRefresh_static w1) as (_&_&_&_&->&_).
Qed.

(** X8.  A direct call of [refreshDecorations] while a callback is waiting
    runs the body at once and leaves the callback waiting: the marker and the
    queue are as before, and the frame runs the body a second time. *)
Theorem manual_refresh_keeps_callback tr b dm :
  let w := run tr (constructed b dm) in
  pending w →
  let w' := refreshDecorations w in
  passes w' = S (passes w) ∧
  _animationFrame (this w') = _animationFrame (this w) ∧
  raf_queue w' = raf_queue w ∧
  scheduled w' = 1 ∧
  passes (animation_frame w') = S (S (passes w)).
Proof.
  intros w Hp w'.
  assert (Hok : sched_ok w) by apply reachable_sched_ok.
  pose proof (refreshDecorations_pending w Hp) as Hq. fold w' in Hq.
  assert (Hp' : pending w') by by eapply pending_ext.
  assert (Hok' : sched_ok w') by by eapply sched_ok_ext.
  destruct (animation_frame_pending w' Hok' Hp') as [Hpass _].
  unfold sched_of in Hq. injection Hq as Ha Hr.
  split; [apply refreshDecorations_passes|]. split; [done|]. split; [done|].
  split; [by apply pending_scheduled|].
  rewrite Hpass. unfold w'. by rewrite refreshDecorations_passes.
Qed.

Lemma manual_refresh_keeps_callback_witness :
  let tr := [RegisterDecoration 2 (Build_DecorationOptions None None None None) 3] in
  let w := run tr (constructed (Build_BufferService 80 24 0 false)
                               (Build_RenderDimensions 9 17)) in
  let w' := refreshDecorations w in
  pending w ∧
  passes w' = S (passes w) ∧
  _animationFrame (this w') = _animationFrame (this w) ∧
  raf_queue w' = raf_queue w ∧
  scheduled w' = 1 ∧
  passes (animation_frame w') = S (S (passes w)).
Proof.
  intros tr w w'. split; [vm_compute; by eexists|].
  apply (manual_refresh_keeps_callback tr
           (Build_BufferService 80 24 0 false) (Build_RenderDimensions 9 17)).
  vm_compute. by eexists.
Defined.

Lemma iter_requests_make_pending k w :
  1 ≤ k → subscriptions_live (this w) = true →
  pending (Nat.iter k (deliver onRenderedBufferChange) w).
Proof.
  destruct k as [|k]; [lia|]. intros _ Hs.
  change (pending (deliver onRenderedBufferChange
                     (Nat.iter k (deliver onRenderedBufferChange) w))).
  unfold deliver at 1.
  destruct (iter_requests_static k w) as [(_&_&_&E&_) _]. rewrite E, Hs.
  apply queueRefresh_makes_pending.
Qed.

Lemma renderDecoration_requests x w d dec :
  objects w !! d = Some dec →
  ∃ dec', objects (_renderDecoration x w) !! d = Some dec' ∧
          onRender_requests dec' = onRender_requests dec.
Proof.
  intros Hd. destruct (objects w !! x) as [decx|] eqn:Ho.
  2: { unfold _renderDecoration. rewrite Ho. eauto. }
  destruct (_decorationElements (this w) !! x) as [e|] eqn:Hm.
  - destruct (renderDecoration_reuses x e w Hm) as (_ & _ & -> & _). eauto.
  - rewrite (renderDecoration_unbound x decx) by done.
    rewrite fire_onRender_objects. simpl. rewrite lookup_insert.
    case_decide; [|by eauto]. subst x.
    assert (decx = dec) as -> by congruence. eauto.
Qed.

Lemma renderDecoration_makes_pending d dec w :
  objects w !! d = Some dec → 1 ≤ onRender_requests dec →
  subscriptions_live (this w) = true →
  pending (_renderDecoration d w).
Proof.
  intros Ho Hk Hs.
  destruct (renderDecoration_unfold d w) as (e & w1 & Heq & Hst & _).
  rewrite Ho in Heq.
  destruct (renderDecoration_requests d w d dec Ho) as (dec' & Ho' & Hk').
  rewrite Heq in Ho' |- *. rewrite fire_onRender_objects in Ho'.
  unfold fire_onRender. rewrite Ho'.
  apply iter_requests_make_pending; [lia|].
  destruct (refreshStyle_static d e w1) as (_&_&_&->&_).
  destruct Hst as (_&_&_&->&_). done.
Qed.

Lemma render_all_makes_pending ds w d dec :
  d ∈ ds → objects w !! d = Some dec → 1 ≤ onRender_requests dec →
  subscriptions_live (this w) = true →
  pending (foldl (λ acc x, _renderDecoration x acc) w ds).
Proof.
  revert w dec. induction ds as [|x ds IH]; intros w dec Hd Ho Hk Hs; simpl.
  - by apply elem_of_nil in Hd.
  - apply elem_of_cons in Hd as [->|Hd].
    + eapply pending_ext.
      * apply render_all_pending. by eapply renderDecoration_makes_pending.
      * by eapply renderDecoration_makes_pending.
    + destruct (renderDecoration_requests x w d dec Ho) as (dec' & Ho' & Hk').
      eapply IH; eauto; [lia|].
      by destruct (renderDecoration_static x w) as (_&_&_&->&_).
Qed.

(** X9.  A refresh request made by a render listener during a pass is
    honoured when the pass was not started by the frame callback: after a
    direct call of [refreshDecorations] in which some live decoration's
    listener requests a refresh, exactly one callback is waiting, and the
    next frame runs the body again. *)
Theorem manual_refresh_honours_requests tr b dm d dec :
  let w := run tr (constructed b dm) in
  subscriptions_live (this w) = true →
  live w d → objects w !! d = Some dec → 1 ≤ onRender_requests dec →
  let w' := refreshDecorations w in
  pending w' ∧ scheduled w' = 1 ∧
  passes (animation_frame w') = S (passes w').
Proof.
  intros w Hs Hd Ho Hk w'.
  assert (Hok' : sched_ok w')
    by apply refreshDecorations_sched_ok, reachable_sched_ok.
  assert (Hp' : pending w').
  { unfold w', refreshDecorations.
    by apply (render_all_makes_pending (decorations w) (count_pass w) d dec). }
  split; [done|]. split; [by apply pending_scheduled|].
  by apply animation_frame_pending.
Qed.

Lemma manual_refresh_honours_requests_witness :
  let tr := [RegisterDecoration 2 (Build_DecorationOptions None None None None) 1;
             AnimationFrame] in
  let w := run tr (constructed (Build_BufferService 80 24 0 false)
                               (Build_RenderDimensions 9 17)) in
  let dec :=
    {| marker := {| line := 2; marker_isDisposed := false;
                    marker_onDispose := [CallDecorationDispose 0] |};
       options := Build_DecorationOptions None None None None;
       element := Some 0; isDisposed := false;
       onDispose := [CallRemoveDecoration 0];
       disposeFired := 0; onRender_requests := 1 |} in
  let w' := refreshDecorations w in
  (scheduled w = 0 ∧ objects w !! 0 = Some dec) ∧
  pending w' ∧ scheduled w' = 1 ∧
  passes (animation_frame w') = S (passes w').
Proof.
  intros tr w dec w'. split; [split; vm_compute; reflexivity|].
  apply (manual_refresh_honours_requests tr
           (Build_BufferService 80 24 0 false) (Build_RenderDimensions 9 17)
           0 dec).
  - vm_compute; reflexivity.
  - vm_compute. by left.
  - vm_compute; reflexivity.
  - simpl. lia.
Defined.

(** ** Horizontal placement *)

(** X10.  The element a pass creates for a decoration is placed from
    [x = options.x ?? 0] and the anchor.  With the right anchor its [right]
    is [x] cells and its [left] stays unset; with the left anchor, or none,
    it is the other way round; an [x] that is absent or 0 sets neither.  So
    the two are never both set.  The line height is one cell.  At creation
    the element is hidden exactly when [x] is not 0 and greater than the
    number of columns (an [x] equal to the column count, or negative, does
    not hide it). *)
Theorem createElement_placement d dec w :
  objects w !! d = Some dec →
  _decorationElements (this w) !! d = None →
  let x := match opt_x (options dec) with Some n => n | None => 0%Z end in
  let offset := if decide (x = 0%Z) then Unset
                else Px (x * actualCellWidth (dimensions w)) in
  (hidden (_createElement dec w) ↔ x ≠ 0%Z ∧ (cols (_bufferService w) < x)%Z) ∧
  ∃ el, document (_renderDecoration d w) !! next_node w = Some el ∧
        style_lineHeight el = Px (actualCellHeight (dimensions w)) ∧
        (opt_anchor (options dec) = Some AnchorRight →
         style_right el = offset ∧ style_left el = Unset) ∧
        (opt_anchor (options dec) ≠ Some AnchorRight →
         style_left el = offset ∧ style_right el = Unset) ∧
        (style_left el = Unset ∨ style_right el = Unset).
Proof.
  intros Ho Hm x offset.
  assert (Hoff : (if truthy x then Px (x * actualCellWidth (dimensions w))
                  else Unset) = offset).
  { unfold offset, truthy. case_decide as Hx.
    - by apply Z.eqb_eq in Hx as ->.
    - by apply Z.eqb_neq in Hx as ->. }
  split.
  - unfold hidden. simpl.
    change (nullish_default (opt_x (options dec)) 0%Z) with x.
    unfold truthy.
    destruct (Z.eqb_spec x 0) as [Hx|Hx]; simpl; [split; [done | by intros [? _]]|].
    destruct (Z.ltb_spec (cols (_bufferService w)) x); split; try done.
    + intros [_ ?]. lia.
  - rewrite (renderDecoration_unbound d dec) by done.
    rewrite fire_onRender_document. simpl. rewrite lookup_insert_eq.
    eexists. split; [done|].
    destruct (restyle_geometry dec w (_createElement dec w))
      as (_ & _ & _ & -> & -> & ->).
    simpl. change (nullish_default (opt_x (options dec)) 0%Z) with x.
    rewrite Hoff.
    split; [done|]. destruct (opt_anchor (options dec)) as [[|]|];
      repeat split; try done; auto; intros; congruence.
Qed.

Lemma createElement_placement_witness :
  let o := Build_DecorationOptions None None (Some (-2)%Z) (Some AnchorRight) in
  let w := run [RegisterDecoration 2 o 0]
               (constructed (Build_BufferService 80 24 0 false)
                            (Build_RenderDimensions 9 17)) in
  let dec :=
    {| marker := {| line := 2; marker_isDisposed := false; marker_onDispose := [] |};
       options := o; element := None; isDisposed := false; onDispose := [];
       disposeFired := 0; onRender_requests := 0 |} in
  let x := match opt_x (options dec) with Some n => n | None => 0%Z end in
  let offset := if decide (x = 0%Z) then Unset
                else Px (x * actualCellWidth (dimensions w)) in
  offset = Px (-18) ∧
  (hidden (_createElement dec w) ↔ x ≠ 0%Z ∧ (cols (_bufferService w) < x)%Z) ∧
  ∃ el, document (_renderDecoration 0 w) !! next_node w = Some el ∧
        style_lineHeight el = Px (actualCellHeight (dimensions w)) ∧
        (opt_anchor (options dec) = Some AnchorRight →
         style_right el = offset ∧ style_left el = Unset) ∧
        (opt_anchor (options dec) ≠ Some AnchorRight →
         style_left el = offset ∧ style_right el = Unset) ∧
        (style_left el = Unset ∨ style_right el = Unset).
Proof.
  intros o w dec x offset. split; [vm_compute; reflexivity|].
  apply (createElement_placement 0 dec w); vm_compute; reflexivity.
Defined.

(** ** The cascade of one decoration leaves the others alone *)






(** ** Event handlers only schedule *)

(** X12.  The handlers the constructor subscribes never touch an element.
    Whatever the state, a notification other than "decoration removed" leaves
    the map, the container, the elements with their styles, the decoration
    objects and the registry as they are; apart from buffer activation,
    which writes the alt-buffer flag, it does nothing but request a frame,
    so at most one callback more is queued. *)
Theorem notifications_only_schedule n w :
  (∀ d, n ≠ onDecorationRemoved d) →
  let w' := deliver n w in
  _decorationElements (this w') = _decorationElements (this w) ∧
  _container (this w') = _container (this w) ∧
  document w' = document w ∧
  objects w' = objects w ∧
  decorations w' = decorations w ∧
  passes w' = passes w ∧
  (n ≠ onBufferActivate →
   _altBufferIsActive (this w') = _altBufferIsActive (this w) ∧
   scheduled w' ≤ S (scheduled w)) ∧
  (n = onBufferActivate → sched_of w' = sched_of w).
Proof.
  intros Hn w'.
  assert (n = onBufferActivate ∨ n ≠ onBufferActivate) as [->|Hb]
    by (destruct n; (by left) || (by right)).
  - unfold w', deliver. destruct (subscriptions_live _); by repeat split.
  - destruct (deliver_refresh_static n w Hb Hn)
      as [(_ & _ & Ha & _ & Hp & Hd) (Hm & Hc & Ho & _ & Hdoc & _)].
    fold w' in Ha, Hp, Hd, Hm, Hc, Ho, Hdoc.
    repeat split; try done. unfold w', deliver, scheduled.
    destruct (subscriptions_live _); [|lia].
    assert (length (raf_queue (_queueRefresh w)) ≤ S (length (raf_queue w))).
    { unfold _queueRefresh. destruct (_animationFrame (this w)); simpl; [lia|].
      rewrite length_app. simpl. lia. }
    destruct n; try done. by destruct (Hn d).
Qed.

Lemma notifications_only_schedule_witness :
  let w := run [RegisterDecoration 2 (Build_DecorationOptions None None None None) 0;
                AnimationFrame; SetBuffer (Build_BufferService 80 24 5 false)]
               (constructed (Build_BufferService 80 24 0 false)
                            (Build_RenderDimensions 9 17)) in
  let w' := deliver onRenderedBufferChange w in
  (scheduled w = 0 ∧ scheduled w' = 1 ∧
   (style_display <$> document w' !! 0) = Some DisplayBlock) ∧
  _decorationElements (this w') = _decorationElements (this w) ∧
  _container (this w') = _container (this w) ∧
  document w' = document w ∧
  objects w' = objects w ∧
  decorations w' = decorations w ∧
  passes w' = passes w ∧
  (onRenderedBufferChange ≠ onBufferActivate →
   _altBufferIsActive (this w') = _altBufferIsActive (this w) ∧
   scheduled w' ≤ S (scheduled w)) ∧
  (onRenderedBufferChange = onBufferActivate → sched_of w' = sched_of w).
Proof.
  intros w w'. split; [repeat split; vm_compute; reflexivity|].
  apply (notifications_only_schedule onRenderedBufferChange w). done.
Defined.

(** ** One element per decoration *)

Lemma decoration_dispose_decorations d w :
  decorations (decoration_dispose d w) = decorations w ∨
  decorations (decoration_dispose d w) = filter (λ c, c ≠ d) (decorations w).
Proof.
  destruct (objects w !! d) as [dec|] eqn:Hd.
  2: { left. rewrite decoration_dispose_disposed; [done | congruence]. }
  destruct (isDisposed dec) eqn:Hn.
  { left. rewrite decoration_dispose_disposed; [done | congruence]. }
  destruct (decoration_dispose_live d dec w Hd Hn) as (w2 & Hr & _ & ->).
  destruct Hr as ((_&_&_&_&_&Hds) & _). right. simpl. by rewrite Hds.
Qed.

Lemma decoration_dispose_NoDup d w :
  NoDup (decorations w) → NoDup (decorations (decoration_dispose d w)).
Proof.
  intros H. destruct (decoration_dispose_decorations d w) as [-> | ->]; [done|].
  by apply NoDup_filter.
Qed.

Lemma marker_dispose_NoDup d w :
  NoDup (decorations w) → NoDup (decorations (marker_dispose d w)).
Proof.
  intros H. unfold marker_dispose.
  destruct (objects w !! d) as [dec|]; [|done].
  destruct (marker_isDisposed _); [done|].
  assert (H1 : NoDup (decorations
                        (upd_objects (alter (upd_marker set_marker_disposed) d) w)))
    by done.
  revert H1. generalize (upd_objects (alter (upd_marker set_marker_disposed) d) w).
  induction (marker_onDispose (marker dec)) as [|[d'] ls IH]; intros w1 H1;
    simpl; [done|].
  apply IH. by apply decoration_dispose_NoDup.
Qed.

Lemma run_callbacks_decorations (q : list nat) w0 :
  decorations (foldl (λ acc _, frame_callback acc) w0 q) = decorations w0.
Proof.
  revert w0. induction q as [|h q IH]; intros w0; simpl; [done|].
  rewrite IH. unfold frame_callback. simpl. apply refreshDecorations_decorations.
Qed.

Lemma animation_frame_decorations w :
  decorations (animation_frame w) = decorations w.
Proof. unfold animation_frame. by rewrite run_callbacks_decorations. Qed.

Lemma step_NoDup a w :
  InvCore w → NoDup (decorations w) → NoDup (decorations (step a w)).
Proof.
  intros HI H. destruct a as [n| | | | | | | | |]; simpl; try done.
  - unfold deliver. destruct (subscriptions_live _); [|done].
    destruct n; try done;
      try by destruct (queueRefresh_static w) as (_&_&_&_&_&->).
    by destruct (removeDecoration_static d w) as (_&_&_&_&_&->).
  - destruct (registerDecoration_effect l o hook w) as [-> _].
    apply NoDup_app. split; [done|]. split; [|apply NoDup_singleton].
    intros x Hx ->%list_elem_of_singleton.
    destruct (inv_live_object w HI _ Hx) as (dec & Ho & _).
    assert (next_object w < next_object w)
      by (apply (inv_object_fresh w HI); eauto).
    lia.
  - by apply decoration_dispose_NoDup.
  - by apply marker_dispose_NoDup.
  - by rewrite animation_frame_decorations.
  - by rewrite refreshDecorations_decorations.
Qed.

Lemma reachable_NoDup tr b dm : NoDup (decorations (run tr (constructed b dm))).
Proof.
  induction tr as [|a tr IH] using rev_ind; [apply NoDup_nil_2|].
  rewrite run_snoc. apply step_NoDup; [apply reachable_InvCore | done].
Qed.

Lemma filter_unmapped_ext (m m' : gmap nat nat) (ds : list nat) :
  (∀ x, x ∈ ds → m' !! x = m !! x) →
  filter (λ x, m' !! x = None) ds = filter (λ x, m !! x = None) ds.
Proof.
  induction ds as [|x ds IH]; intros H; [done|].
  rewrite !filter_cons. rewrite (H x) by by left.
  rewrite IH by (intros; apply H; by right). done.
Qed.

Lemma render_all_count ds w :
  InvCore w → NoDup ds → (∀ d, d ∈ ds → d ∈ decorations w) →
  next_node (foldl (λ acc d, _renderDecoration d acc) w ds) =
    next_node w +
    length (filter (λ d, _decorationElements (this w) !! d = None) ds) ∧
  length (_container (this (foldl (λ acc d, _renderDecoration d acc) w ds))) =
    length (_container (this w)) +
    length (filter (λ d, _decorationElements (this w) !! d = None) ds).
Proof.
  revert w. induction ds as [|d ds IH]; intros w HI Hnd Hds; simpl; [lia|].
  apply NoDup_cons in Hnd as [Hd Hnd].
  assert (Hlive : d ∈ decorations w) by (apply Hds; by left).
  destruct (inv_live_object w HI d Hlive) as (dec & Ho & _).
  destruct (IH (_renderDecoration d w)) as [IHn IHc].
  { by apply renderDecoration_InvCore. }
  { done. }
  { intros y Hy. destruct (renderDecoration_static d w) as (_&_&_&_&_&->).
    apply Hds. by right. }
  rewrite IHn, IHc. rewrite filter_cons.
  destruct (_decorationElements (this w) !! d) as [e|] eqn:Hm.
  - destruct (renderDecoration_reuses d e w Hm) as (-> & -> & _ & ->).
    rewrite decide_False by done. done.
  - rewrite decide_True by done.
    rewrite (renderDecoration_unbound d dec) by done.
    rewrite fire_onRender_map, fire_onRender_next_node, fire_onRender_container.
    simpl. rewrite length_app. simpl.
    rewrite (filter_unmapped_ext (_decorationElements (this w))
               (<[d:=next_node w]> (_decorationElements (this w))) ds).
    + lia.
    + intros x Hx. apply lookup_insert_ne. by intros ->.
Qed.

(** X13.  The registry never lists a decoration twice, and a refresh pass
    creates exactly one element for each live decoration that has none and
    none for the others: the number of nodes allocated and the number of
    children appended to the container both equal the number of live
    decorations without a map entry. *)
Theorem refresh_creates_one_element_each tr b dm :
  let w := run tr (constructed b dm) in
  let missing :=
    length (filter (λ d, _decorationElements (this w) !! d = None)
                   (decorations w)) in
  NoDup (decorations w) ∧
  next_node (refreshDecorations w) = next_node w + missing ∧
  length (_container (this (refreshDecorations w))) =
    length (_container (this w)) + missing.
Proof.
  intros w missing. split; [apply reachable_NoDup|].
  unfold refreshDecorations.
  apply (render_all_count (decorations w) (count_pass w)).
  - apply count_pass_InvCore, reachable_InvCore.
  - apply reachable_NoDup.
  - done.
Qed.
